(** * employee_manager: upload classification, connection pool and activity log

    A shallow embedding of the parts of the repository that the upload path
    goes through:

    - [components/pages/file_upload.py]     (module [FileUpload]),
    - [components/data/database.py]         (module [DatabasePool]),
    - [components/utils/activity_logger.py] (module [ActivityLogger]),

    together with a model of the upload ledger that the ETL package writes
    (module [Ledger]).  Python code that raises is embedded in a small
    state-and-exception monad (module [Py]); dictionaries are [gmap]s.

    The first part of the file holds the definitions, the second part the
    properties proved about them. *)

From Stdlib Require Import Ascii String.
From stdpp Require Import gmap strings list fin_maps pretty.

(** * Part I: the program *)

(** ** Python values and control flow *)

Module Py.

(** An exception object.  [exn_is_Exception] tells whether its class
    derives from [Exception]; [KeyboardInterrupt], [SystemExit] and
    Streamlit's script-control exceptions derive from [BaseException]
    only, and an [except Exception] clause lets them through. *)
Record exn := Exn {
  exn_class : string;
  exn_is_Exception : bool;
  exn_str : string
}.

(** What a failing library call (psycopg2, SQLAlchemy, json, open) raises:
    an instance of a subclass of [Exception]. *)
Record error := Error {
  error_class : string;
  error_str : string
}.

Definition exn_of (e : error) : exn :=
  Exn (error_class e) true (error_str e).

Inductive result (A : Type) : Type :=
| Ok (a : A)
| Raise (e : exn).
Arguments Ok {A} a.
Arguments Raise {A} e.

(** A computation over a store [S] that returns or raises. *)
Definition M (S A : Type) : Type := S -> result A * S.

Definition ret {S A} (a : A) : M S A := fun s => (Ok a, s).

Definition raise {S A} (e : exn) : M S A := fun s => (Raise e, s).

Definition bind {S A B} (m : M S A) (k : A -> M S B) : M S B :=
  fun s =>
    match m s with
    | (Ok a, s') => k a s'
    | (Raise e, s') => (Raise e, s')
    end.

(** [try: m  except Exception as e: h e] *)
Definition try_except {S A} (m : M S A) (h : exn -> M S A) : M S A :=
  fun s =>
    match m s with
    | (Ok a, s') => (Ok a, s')
    | (Raise e, s') =>
        if exn_is_Exception e then h e s' else (Raise e, s')
    end.

(** [try: m  finally: f].  An exception raised by [f] replaces the outcome
    of [m]. *)
Definition try_finally {S A} (m : M S A) (f : M S unit) : M S A :=
  fun s =>
    match m s with
    | (r, s') =>
        match f s' with
        | (Ok _, s'') => (r, s'')
        | (Raise e, s'') => (Raise e, s'')
        end
    end.

Definition modify {S} (f : S -> S) : M S unit := fun s => (Ok tt, f s).

End Py.

Declare Scope py_scope.
Delimit Scope py_scope with py.
Notation "x <- m ;; k" := (Py.bind m (fun x => k))
  (at level 100, m at next level, right associativity) : py_scope.
Notation "m ;;; k" := (Py.bind m (fun _ => k))
  (at level 100, right associativity) : py_scope.

(** ** Strings *)

Module PyStr.

(** [str.lower] on ASCII text only: the letters A-Z move down by 32 and
    every other byte is kept.  On text with letters outside ASCII
    [str.lower] does more (it follows Unicode, and the result for a letter
    can depend on its neighbours), so the pages below take [str.lower] as
    a parameter; this function stands for it in the examples, whose names
    are ASCII. *)
Definition lower_char (c : ascii) : ascii :=
  let n := N_of_ascii c in
  if ((65 <=? n) && (n <=? 90))%N then ascii_of_N (n + 32) else c.

Fixpoint lower (s : string) : string :=
  match s with
  | EmptyString => EmptyString
  | String c s' => String (lower_char c) (lower s')
  end.

(** [needle in hay] *)
Fixpoint contains (needle hay : string) : bool :=
  String.prefix needle hay
  || match hay with
     | EmptyString => false
     | String _ hay' => contains needle hay'
     end.

(** [sep.join (l)] *)
Fixpoint join (sep : string) (l : list string) : string :=
  match l with
  | [] => ""
  | [x] => x
  | x :: l' => x +:+ sep +:+ join sep l'
  end.

(** Truth value of a string: only the empty string is false. *)
Definition truthy (s : string) : bool :=
  match s with
  | EmptyString => false
  | String _ _ => true
  end.

(** Substring containment, as a proposition. *)
Definition substring_of (a b : string) : Prop :=
  ∃ pre post, b = pre +:+ a +:+ post.

(** [s.split (sep)] for a separator that is not empty: the text is cut at
    the occurrences of [sep] met from left to right, which do not overlap.
    [skip] counts the characters of an occurrence still to be passed over,
    [cur] is the part read so far. *)
Fixpoint split_go (sep : string) (skip : nat) (cur s : string) : list string :=
  match s with
  | EmptyString => [cur]
  | String c s' =>
      match skip with
      | S k => split_go sep k cur s'
      | 0 =>
          if String.prefix sep s
          then cur :: split_go sep (String.length sep - 1) "" s'
          else split_go sep 0 (cur +:+ String c "") s'
      end
  end.

Definition split (sep s : string) : list string := split_go sep 0 "" s.

(** [s.rstrip (c)] for a single character [c]: the trailing run of [c] is
    dropped. *)
Fixpoint rstrip (c : ascii) (s : string) : string :=
  match s with
  | EmptyString => EmptyString
  | String a s' =>
      match rstrip c s' with
      | EmptyString => if ascii_dec a c then EmptyString else String a ""
      | r => String a r
      end
  end.

(** [s.endswith (c)] for a single character. *)
Definition ends_with (c : ascii) (s : string) : Prop :=
  ∃ a, s = a +:+ String c "".

(** A Python string is a sequence of code points; here it is the list of
    the bytes of its UTF-8 encoding.  A byte [10xxxxxx] continues the code
    point begun before it; every other byte begins one. *)
Definition is_continuation (c : ascii) : bool :=
  let n := N_of_ascii c in ((128 <=? n) && (n <? 192))%N.

(** [len (s)]: the number of code points. *)
Fixpoint len (s : string) : nat :=
  match s with
  | EmptyString => 0
  | String c s' => if is_continuation c then len s' else S (len s')
  end.

(** [s[:n]]: the first [n] code points, each with all its bytes. *)
Fixpoint slice_to (n : nat) (s : string) : string :=
  match s with
  | EmptyString => EmptyString
  | String c s' =>
      if is_continuation c then String c (slice_to n s')
      else match n with
           | 0 => EmptyString
           | S n' => String c (slice_to n' s')
           end
  end.

End PyStr.

(** ** components/pages/file_upload.py *)

Module FileUpload.
Import Py.
Local Open Scope py_scope.

(** What Streamlit hands over for one uploaded file. *)
Record uploaded_file := UploadedFile {
  name : string;
  getbuffer : list Byte.byte
}.

(** What the page shows. *)
Inductive st_element :=
| st_warning (msg : string)
| st_success (msg : string).

(** The store the page acts on: the files on disk, the rows of
    [csv_upload_log] (upload id and file type), and what has been put on
    the screen. *)
Record world := World {
  fs : gmap string (list Byte.byte);
  csv_upload_log : list (nat * string);
  screen : list st_element
}.

(** The two locals the upload loop fills. *)
Record locals := Locals {
  files_dict : gmap string string;
  unrecognized_files : list string
}.

Section Page.

(** [str.lower]; [PyStr.lower] is its ASCII instance. *)
Variable str_lower : string -> string.

(** [etl_config.required_files.items ()], in iteration order. *)
Variable required_files : list (string * string).

(** [app_config.upload_folder / segment], as the text of the path that
    [open] is given: the join of [pathlib], which is not plain
    concatenation when the segment holds a slash. *)
Variable upload_folder : string -> string.

(** [open (path, "wb")] fails with the error given here; [None] means
    that the file can be opened for writing. *)
Variable open_wb_error : string -> option error.

(** [type_name.lower () in uploaded_file.name.lower ()] *)
Definition fragment_in (type_name file_name : string) : bool :=
  PyStr.contains (str_lower type_name) (str_lower file_name).

(** Lines 29-33: the value of [file_type] after the inner loop, which
    stops at the first match. *)
Fixpoint file_type_of (items : list (string * string)) (file_name : string)
  : option string :=
  match items with
  | [] => None
  | (type_key, type_name) :: items' =>
      if fragment_in type_name file_name then Some type_key
      else file_type_of items' file_name
  end.

(** Line 35, [if file_type:]: [None] and the empty key are false. *)
Definition recognized (file_type : option string) : option string :=
  match file_type with
  | Some k => if PyStr.truthy k then Some k else None
  | None => None
  end.

(** [app_config.upload_folder / f"{file_type}_{uploaded_file.name}"] *)
Definition save_path (file_type file_name : string) : string :=
  upload_folder (file_type +:+ "_" +:+ file_name).

(** Lines 38-39: [with open (save_path, "wb") as f: f.write (...)] *)
Definition write_file (path : string) (content : list Byte.byte)
  : M world unit :=
  match open_wb_error path with
  | Some e => raise (exn_of e)
  | None =>
      modify (fun w => World (<[path := content]> (fs w))
                             (csv_upload_log w) (screen w))
  end.

(** Lines 28-42: the body of the loop over the uploaded files. *)
Definition upload_step (f : uploaded_file) (l : locals) : M world locals :=
  match recognized (file_type_of required_files (name f)) with
  | Some file_type =>
      let p := save_path file_type (name f) in
      write_file p (getbuffer f) ;;;
      ret (Locals (<[file_type := p]> (files_dict l))
                  (unrecognized_files l))
  | None =>
      ret (Locals (files_dict l) (unrecognized_files l ++ [name f]))
  end.

(** Lines 27-42. *)
Fixpoint upload_loop (uploaded_files : list uploaded_file) (l : locals)
  : M world locals :=
  match uploaded_files with
  | [] => ret l
  | f :: rest => l' <- upload_step f l ;; upload_loop rest l'
  end.

Definition st_show (e : st_element) : M world unit :=
  modify (fun w => World (fs w) (csv_upload_log w) (screen w ++ [e])).

(** Lines 46-49: the status message. *)
Definition status_message (l : locals) : st_element :=
  match unrecognized_files l with
  | _ :: _ =>
      st_warning ("✓ " +:+ pretty (size (files_dict l))
                  +:+ " files uploaded successfully. Unable to process: "
                  +:+ PyStr.join ", " (unrecognized_files l))
  | [] =>
      st_success ("✓ All " +:+ pretty (size (files_dict l))
                  +:+ " files uploaded successfully!")
  end.

(** Lines 21-57, up to the call of the pipeline: the result is the
    mapping given to [ETLPipeline ().process_files], if it is called.
    [process_clicked] is the value of [st.button ("Process Files")]. *)
Definition render_file_upload (uploaded_files : list uploaded_file)
    (process_clicked : bool) : M world (option (gmap string string)) :=
  match uploaded_files with
  | [] => ret None
  | _ :: _ =>
      l <- upload_loop uploaded_files (Locals ∅ []) ;;
      if decide (files_dict l = ∅) then ret None
      else
        st_show (status_message l) ;;;
        ret (if process_clicked then Some (files_dict l) else None)
  end.

(** *** Vocabulary for the properties *)

(** The fragment occurs in the file name once both are lowered. *)
Definition matches (type_name file_name : string) : Prop :=
  PyStr.substring_of (str_lower type_name) (str_lower file_name).

(** The key under which a file is stored, if any (lines 29-35). *)
Definition record_type (f : uploaded_file) : option string :=
  recognized (file_type_of required_files (name f)).

(** The record types of the recognized files of a batch, in order. *)
Definition record_types (batch : list uploaded_file) : list string :=
  omap record_type batch.

(** The names of the files of a batch that are not recognized. *)
Definition unrecognized_names (batch : list uploaded_file) : list string :=
  name <$> filter (λ f, record_type f = None) batch.

(** The writes of lines 37-39 for a whole batch, on the files alone. *)
Definition saved (files : gmap string (list Byte.byte))
    (batch : list uploaded_file) : gmap string (list Byte.byte) :=
  foldl (λ m f,
           match record_type f with
           | Some k => <[save_path k (name f) := getbuffer f]> m
           | None => m
           end) files batch.

End Page.

(** A configuration and the values used in the examples. *)
Definition demo_files : list (string * string) :=
  [("employee", "Employee"); ("department", "Department");
   ("project", "Project"); ("timesheet", "Timesheet")].

Definition no_error : string -> option error := λ _, None.

(** The upload folder [uploads]: what [pathlib] gives for a segment
    without a slash, as in the examples. *)
Definition uploads (segment : string) : string := "uploads/" +:+ segment.

(** An upload folder in which one path cannot be written. *)
Definition locked (path : string) : string -> option error :=
  λ p, if decide (p = path)
       then Some (Error "PermissionError" "Permission denied")
       else None.

Definition csv (file_name : string) : uploaded_file :=
  UploadedFile file_name [Byte.x61; Byte.x2c; Byte.x62].

Definition empty_world : world := World ∅ [] [].

(** Three files of three record types and one that matches no fragment. *)
Definition mixed_batch : list uploaded_file :=
  [csv "employee.csv"; csv "Department_list.csv"; csv "Q3_PROJECT.csv";
   csv "notes.csv"].

(** Three recognized files, two of them of one record type, and one that
    matches no fragment. *)
Definition clashing_batch : list uploaded_file :=
  [csv "employee_jan.csv"; csv "employee_feb.csv"; csv "project.csv";
   csv "notes.csv"].

(** The page of the examples. *)
Definition demo_loop (batch : list uploaded_file) : M world locals :=
  upload_loop PyStr.lower demo_files uploads no_error batch (Locals ∅ []).

Definition demo_render (batch : list uploaded_file)
  : M world (option (gmap string string)) :=
  render_file_upload PyStr.lower demo_files uploads no_error batch true.

End FileUpload.

(** ** The upload ledger *)

Module Ledger.

(** Modelled from the spec: the Run Ledger and the counts that the ETL
    pipeline (package [etl], imported by [file_upload.py] but not among the
    sources) writes to [csv_upload_log].  Sections 3, 4.2, 4.4, 4.5 and 4.6
    of the specification: every row of a file that was read is either
    loaded or rejected; a malformed file is logged with no processed
    record; a file whose transaction fails is logged with
    [records_success = 0] and [records_failed = records_processed]. *)
Inductive status := success | partial | failed.

(** Modelled from the spec: one row of [csv_upload_log] (section 3). *)
Record UploadLog := {
  upload_id : nat;
  file_type : string;
  upload_timestamp : nat;
  upload_status : status;
  records_processed : nat;
  records_success : nat;
  records_failed : nat
}.

(** Modelled from the spec: one row of [data_validation_errors]. *)
Record ValidationError := {
  error_upload_id : nat;
  field_name : string;
  field_value : string;
  error_message : string
}.

(** Modelled from the spec: what happens to one row of a file that was
    read.  A row is loaded, or it is kept out of the load: rejected by the
    validators, with one entry (field name, raw value, message) for each
    failing field, or skipped by the loader, with no entry. *)
Inductive row_outcome :=
| row_loaded
| row_rejected (fields : list (string * string * string)).

(** Modelled from the spec: what happens to one file of a batch. *)
Inductive file_outcome :=
| malformed
| transaction_failed (rows : list row_outcome)
| resolved (rows : list row_outcome).

Definition is_loaded (r : row_outcome) : bool :=
  match r with
  | row_loaded => true
  | row_rejected _ => false
  end.

Definition count_loaded (rows : list row_outcome) : nat :=
  length (filter (λ r, is_loaded r = true) rows).

Definition count_rejected (rows : list row_outcome) : nat :=
  length (filter (λ r, is_loaded r = false) rows).

(** Modelled from the spec: the row written for one file. *)
Definition upload_log_row (id : nat) (type : string) (now : nat)
    (o : file_outcome) : UploadLog :=
  match o with
  | malformed =>
      Build_UploadLog id type now failed 0 0 0
  | transaction_failed rows =>
      Build_UploadLog id type now failed (length rows) 0 (length rows)
  | resolved rows =>
      Build_UploadLog id type now
        (if decide (count_rejected rows = 0) then success else partial)
        (length rows) (count_loaded rows) (count_rejected rows)
  end.

(** Modelled from the spec: one validation-error row for each rejected
    field of a file. *)
Definition validation_rows (id : nat) (o : file_outcome)
  : list ValidationError :=
  match o with
  | malformed => []
  | transaction_failed rows | resolved rows =>
      rows ≫= λ r,
        match r with
        | row_loaded => []
        | row_rejected fields =>
            (λ f, Build_ValidationError id f.1.1 f.1.2 f.2) <$> fields
        end
  end.

(** The two audit tables. *)
Record ledger := Ledger {
  upload_log : list UploadLog;
  validation_errors : list ValidationError
}.

(** Modelled from the spec: the ledger write for one file (section 4.5);
    both tables are append-only. *)
Definition log_file (type : string) (now : nat) (o : file_outcome)
    (l : ledger) : ledger :=
  let id := S (length (upload_log l)) in
  Ledger (upload_log l ++ [upload_log_row id type now o])
         (validation_errors l ++ validation_rows id o).

(** Modelled from the spec: a batch is handled one file after the other. *)
Fixpoint log_batch (files : list (string * nat * file_outcome)) (l : ledger)
  : ledger :=
  match files with
  | [] => l
  | (type, now, o) :: rest => log_batch rest (log_file type now o l)
  end.

(** The invariant of section 3. *)
Definition counts_add_up (r : UploadLog) : Prop :=
  records_processed r = records_success r + records_failed r.

End Ledger.

(** ** components/data/database.py *)

Module DatabasePool.
Import Py.
Local Open Scope py_scope.

(** A psycopg2 connection and a cursor opened on one. *)
Definition connection := nat.

Record cursor := Cursor {
  cursor_connection : connection;
  cursor_serial : nat
}.

Global Instance cursor_eq_dec : EqDecision cursor.
Proof. solve_decision. Defined.

(** The calls into psycopg2. *)
Inductive call :=
| SimpleConnectionPool_new
| pool_getconn
| pool_putconn (conn : connection)
| pool_closeall
| conn_cursor (conn : connection)
| conn_commit (conn : connection)
| conn_rollback (conn : connection)
| cursor_close (cur : cursor).

Inductive event :=
| called (c : call)
| logger_info (msg : string)
| logger_error (msg : string).

Global Instance call_eq_dec : EqDecision call.
Proof. solve_decision. Defined.

Global Instance event_eq_dec : EqDecision event.
Proof. solve_decision. Defined.

(** The store: the calls and log lines so far, the class attribute
    [DatabasePool._instance] (an object identity), the [_pool] attribute of
    the instances on which it has been set (others read the class
    attribute, [None]), and the allocator of object identities. *)
Record store := Store {
  trace : list event;
  _instance : option nat;
  _pool : gmap nat nat;
  next_object : nat
}.

Section Driver.

(** Whether a call into psycopg2 fails, given what happened before. *)
Variable fault : call -> list event -> option error.

(** The connection that [getconn] hands out, given what happened before. *)
Variable connection_of : list event -> connection.

Definition record (e : event) (s : store) : store :=
  Store (trace s ++ [e]) (_instance s) (_pool s) (next_object s).

Definition emit (e : event) : M store unit := modify (record e).

(** A call into psycopg2: it is made, and returns or raises. *)
Definition invoke (c : call) : M store unit :=
  fun s =>
    match fault c (trace s) with
    | Some err => (Raise (exn_of err), record (called c) s)
    | None => (Ok tt, record (called c) s)
    end.

(** Lines 23-39. *)
Definition _initialize_pool (self : nat) : M store unit :=
  try_except
    (invoke SimpleConnectionPool_new ;;;
     modify (fun s => Store (trace s) (_instance s)
                            (<[self := length (trace s)]> (_pool s))
                            (next_object s)) ;;;
     emit (logger_info "Database connection pool initialized successfully"))
    (fun e =>
       emit (logger_error ("Failed to initialize database pool: "
                           +:+ exn_str e)) ;;;
       raise e).

(** Lines 17-21, [DatabasePool ()]: the result is the identity of the
    object returned. *)
Definition __new__ : M store nat :=
  fun s =>
    match _instance s with
    | None =>
        let self := next_object s in
        (modify (fun s => Store (trace s) (Some self) (_pool s) (S self)) ;;;
         _initialize_pool self ;;;
         ret self) s
    | Some self => (Ok self, s)
    end.

(** [self._pool.getconn ()] *)
Definition getconn (self : nat) : M store connection :=
  fun s =>
    match _pool s !! self with
    | None =>
        (Raise (Exn "AttributeError" true
                  "'NoneType' object has no attribute 'getconn'"), s)
    | Some _ => (invoke pool_getconn ;;; ret (connection_of (trace s))) s
    end.

(** Lines 41-52, [with self.get_connection () as conn: body conn].  The
    body runs where the generator yields.  A connection object is true, so
    that [if conn:] holds exactly when [getconn] has returned. *)
Definition get_connection {A} (self : nat) (body : connection -> M store A)
  : M store A :=
  let handler e :=
    emit (logger_error ("Error getting connection from pool: "
                        +:+ exn_str e)) ;;;
    raise e in
  fun s =>
    match getconn self s with
    | (Ok conn, s1) =>
        try_finally (try_except (body conn) handler)
                    (invoke (pool_putconn conn)) s1
    | (Raise e, s1) =>
        (* [conn] is still [None]: the [finally] clause does nothing *)
        try_except (raise e) handler s1
    end.

(** [conn.cursor ()] *)
Definition open_cursor (conn : connection) : M store cursor :=
  fun s => (invoke (conn_cursor conn) ;;;
            ret (Cursor conn (length (trace s)))) s.

(** Lines 54-67, [with self.get_cursor () as cursor: body cursor]. *)
Definition get_cursor {A} (self : nat) (body : cursor -> M store A)
  : M store A :=
  get_connection self (fun conn =>
    cursor <- open_cursor conn ;;
    try_finally
      (try_except
         (a <- body cursor ;; invoke (conn_commit conn) ;;; ret a)
         (fun e =>
            invoke (conn_rollback conn) ;;;
            emit (logger_error ("Database operation failed: "
                                +:+ exn_str e)) ;;;
            raise e))
      (invoke (cursor_close cursor))).

(** Lines 69-73. *)
Definition close_all (self : nat) : M store unit :=
  fun s =>
    match _pool s !! self with
    | Some _ =>
        (invoke pool_closeall ;;;
         emit (logger_info "All database connections closed")) s
    | None => (Ok tt, s)
    end.

(** [n] constructions in a row, each with its outcome. *)
Fixpoint construct (n : nat) (s : store) : list (result nat) * store :=
  match n with
  | 0 => ([], s)
  | S n' =>
      let '(r, s1) := __new__ s in
      let '(rs, s2) := construct n' s1 in
      (r :: rs, s2)
  end.

(** How often the connection pool was built. *)
Definition pool_builds (t : list event) : nat :=
  length (filter (λ e, e = called SimpleConnectionPool_new) t).

(** The store after a run of further events. *)
Definition record_all (es : list event) (s : store) : store :=
  Store (trace s ++ es) (_instance s) (_pool s) (next_object s).

(** The calls that [get_cursor] makes once the body is over. *)
Definition winds_up (conn : connection) (cur : cursor) (c : call) : Prop :=
  c = conn_commit conn ∨ c = conn_rollback conn
  ∨ c = cursor_close cur ∨ c = pool_putconn conn.

(** The two lines that the [except] clauses log. *)
Definition operation_failed (e : exn) : event :=
  logger_error ("Database operation failed: " +:+ exn_str e).

Definition getting_failed (e : exn) : event :=
  logger_error ("Error getting connection from pool: " +:+ exn_str e).

End Driver.

(** The module before [DatabasePool] is first constructed. *)
Definition initial_store : store := Store [] None ∅ 0.

Definition no_fault : call -> list event -> option error := λ _ _, None.

(** The module once [db_pool = DatabasePool ()] has run: object 0 with its
    pool. *)
Definition ready_store : store := Store [] (Some 0) {[0 := 0]} 1.

(** A driver whose pool cannot be built. *)
Definition no_database (c : call) (t : list event) : option error :=
  match c with
  | SimpleConnectionPool_new =>
      Some (Error "OperationalError" "connection refused")
  | _ => None
  end.

(** A driver in which one call fails, whenever it is made. *)
Definition failing (c : call) : call -> list event -> option error :=
  λ c' _, if decide (c' = c)
          then Some (Error "OperationalError" "server closed the connection")
          else None.

Definition KeyboardInterrupt : exn := Exn "KeyboardInterrupt" false "".

Definition ValueError : exn := Exn "ValueError" true "bad value".

End DatabasePool.

(** ** components/utils/activity_logger.py *)

Module ActivityLogger.
Import Py.
Local Open Scope py_scope.

(** A value of a [details] dictionary: an integer, a string, or some
    other Python object. *)
Inductive value :=
| VInt (z : Z)
| VStr (s : string)
| VObject (id : nat).

(** A SQLAlchemy engine, identified by what it connects to. *)
Definition engine_t := string.

(** One row of the table [system_logs]; the key [log_id] is given by the
    database and is left out. *)
Record SystemLog := {
  event_type : string;
  user : option string;
  description : string;
  details : option string;
  timestamp : nat
}.

(** An [ActivityLogger] object: its identity and its two attributes. *)
Record ActivityLogger := {
  object_id : nat;
  engine : option engine_t;
  Session : option engine_t
}.

Inductive log_line :=
| logger_info (msg : string)
| logger_error (msg : string).

(** The store: the table, the lines written to the Python logger, the
    clock read by [datetime.now ()], the module global [_activity_logger],
    and the allocator of object identities. *)
Record store := Store {
  system_logs : list SystemLog;
  log_lines : list log_line;
  clock : nat;
  _activity_logger : option ActivityLogger;
  next_object : nat
}.

Section Environment.

(** [os.getenv]. *)
Variable getenv : string -> option string.

(** Whether [create_engine (db_url, ...)] fails. *)
Variable create_engine_error : string -> option error.

(** Whether [Base.metadata.create_all (engine, ...)] fails. *)
Variable create_all_error : engine_t -> option error.

(** [json.dumps]: the text, or the error it raises. *)
Variable json_dumps : list (string * value) -> error + string.

(** Whether opening a session on the engine, adding the entry and
    committing fails, given the rows already there. *)
Variable session_error : engine_t -> SystemLog -> list SystemLog -> option error.

Definition emit (l : log_line) : M store unit :=
  modify (fun s => Store (system_logs s) (log_lines s ++ [l]) (clock s)
                         (_activity_logger s) (next_object s)).

(** [os.getenv (key, default)] *)
Definition getenv_or (key default : string) : string :=
  match getenv key with
  | Some v => v
  | None => default
  end.

(** Lines 66-71. *)
Definition create_logs_table (eng : engine_t) : M store unit :=
  match create_all_error eng with
  | None => emit (logger_info "System logs table created or already exists")
  | Some err =>
      emit (logger_error ("Error creating system logs table: "
                          +:+ error_str err))
  end.

(** Lines 42-64, [ActivityLogger (engine)]: the object constructed. *)
Definition __init__ (engine_arg : option engine_t) : M store ActivityLogger :=
  fun s =>
    let self := next_object s in
    (modify (fun s => Store (system_logs s) (log_lines s) (clock s)
                            (_activity_logger s) (S self)) ;;;
     try_except
       (eng <- match engine_arg with
               | None =>
                   let db_host := getenv_or "DB_HOST" "localhost" in
                   let db_port := getenv_or "DB_PORT" "5432" in
                   let db_name := getenv_or "DB_NAME" "employee_management_db" in
                   let db_user := getenv_or "DB_USER" "hr_admin" in
                   let db_password := getenv_or "DB_PASSWORD" "" in
                   let db_url :=
                     "postgresql://" +:+ db_user +:+ ":" +:+ db_password
                     +:+ "@" +:+ db_host +:+ ":" +:+ db_port
                     +:+ "/" +:+ db_name in
                   match create_engine_error db_url with
                   | Some err => raise (exn_of err)
                   | None => ret db_url
                   end
               | Some e => ret e
               end ;;
        create_logs_table eng ;;;
        ret (Build_ActivityLogger self (Some eng) (Some eng)))
       (fun e =>
          emit (logger_error ("Failed to initialize ActivityLogger: "
                              +:+ exn_str e)) ;;;
          ret (Build_ActivityLogger self None None))) s.

(** Truth value of the [details] argument: [None] and the empty
    dictionary are false. *)
Definition details_given (details : option (list (string * value)))
  : option (list (string * value)) :=
  match details with
  | Some [] => None
  | Some d => Some d
  | None => None
  end.

(** Lines 81-84: the value of [details_str], or the error that
    [json.dumps] raises. *)
Definition details_str_of (details : option (list (string * value)))
  : error + option string :=
  match details_given details with
  | None => inr None
  | Some d =>
      match json_dumps d with
      | inl err => inl err
      | inr text => inr (Some text)
      end
  end.

(** Lines 96-98: [with self.Session () as session: add; commit]. *)
Definition session_commit (eng : engine_t) (entry : SystemLog)
  : M store unit :=
  fun s =>
    match session_error eng entry (system_logs s) with
    | Some err => (Raise (exn_of err), s)
    | None =>
        (Ok tt, Store (system_logs s ++ [entry]) (log_lines s) (clock s)
                      (_activity_logger s) (next_object s))
    end.

(** Lines 73-105. *)
Definition log_event (self : ActivityLogger) (event_type description : string)
    (user : option string) (details : option (list (string * value)))
  : M store bool :=
  try_except
    (match Session self with
     | None =>
         emit (logger_error "Cannot log event: Session is not initialized") ;;;
         ret false
     | Some eng =>
         details_str <-
           match details_given details with
           | None => ret None
           | Some d =>
               match json_dumps d with
               | inl err => raise (exn_of err)
               | inr text => ret (Some text)
               end
           end ;;
         (fun s =>
            (log_entry <-
               ret (Build_SystemLog event_type user description details_str
                                    (clock s)) ;;
             session_commit eng log_entry ;;;
             emit (logger_info ("Logged event: " +:+ event_type +:+ " - "
                                +:+ description)) ;;;
             ret true) s)
     end)
    (fun e =>
       emit (logger_error ("Error logging event: " +:+ exn_str e)) ;;;
       ret false).

(** Lines 107-111. *)
Definition log_file_upload (self : ActivityLogger) (filename file_type : string)
    (user : option string) (status : string)
    (details : option (list (string * value))) : M store bool :=
  let description :=
    "File upload: " +:+ filename +:+ " (" +:+ file_type +:+ ") - "
    +:+ status in
  log_event self "FILE_UPLOAD" description user details.

(** Lines 113-123. *)
Definition log_file_processing (self : ActivityLogger) (filename : string)
    (records_processed records_success records_failed : Z)
    (user : option string) : M store bool :=
  let description := "File processed: " +:+ filename in
  let details :=
    [("records_processed", VInt records_processed);
     ("records_success", VInt records_success);
     ("records_failed", VInt records_failed)] in
  log_event self "FILE_PROCESSING" description user (Some details).

(** Lines 239-244. *)
Definition get_logger (engine_arg : option engine_t) : M store ActivityLogger :=
  fun s =>
    match _activity_logger s with
    | None =>
        (logger <- __init__ engine_arg ;;
         modify (fun s => Store (system_logs s) (log_lines s) (clock s)
                                (Some logger) (next_object s)) ;;;
         ret logger) s
    | Some logger => (Ok logger, s)
    end.

(** A sequence of calls of [get_logger], each with its outcome. *)
Fixpoint get_loggers (engines : list (option engine_t)) (s : store)
  : list (result ActivityLogger) * store :=
  match engines with
  | [] => ([], s)
  | e :: rest =>
      let '(r, s1) := get_logger e s in
      let '(rs, s2) := get_loggers rest s1 in
      (r :: rs, s2)
  end.

(** Lines 47-53: the URL that [__init__] hands to [create_engine] when it
    is given no engine. *)
Definition db_url : string :=
  "postgresql://" +:+ getenv_or "DB_USER" "hr_admin" +:+ ":"
  +:+ getenv_or "DB_PASSWORD" "" +:+ "@" +:+ getenv_or "DB_HOST" "localhost"
  +:+ ":" +:+ getenv_or "DB_PORT" "5432" +:+ "/"
  +:+ getenv_or "DB_NAME" "employee_management_db".

(** Lines 125-138. *)
Definition log_query (self : ActivityLogger) (query_text : string)
    (user : option string) (query_type status : string) : M store bool :=
  let query_text_short :=
    if decide (500 < PyStr.len query_text)
    then PyStr.slice_to 500 query_text +:+ "..."
    else query_text in
  let description := query_type +:+ " query executed: " +:+ query_text_short in
  let details := [("query", VStr query_text); ("status", VStr status)] in
  log_event self "QUERY" description user (Some details).

(** Lines 140-149. *)
Definition log_ai_query (self : ActivityLogger)
    (user_query generated_sql : string) (user : option string)
    (status : string) : M store bool :=
  let description := "AI Query: " +:+ PyStr.slice_to 100 user_query +:+ "..." in
  let details :=
    [("user_query", VStr user_query); ("generated_sql", VStr generated_sql);
     ("status", VStr status)] in
  log_event self "AI_QUERY" description user (Some details).

(** [session.execute (query).scalars ().all ()] for the query of
    [get_logs]: rows of the table ordered by time, newest first, of the
    given event type if there is one, [limit] of them from [offset] on; or
    the error raised by the session or the database. *)
Variable execute :
  engine_t -> option string -> Z -> Z -> list SystemLog
  -> error + list SystemLog.

(** Lines 151-189.  The data frame is the list of its rows, which carry
    the columns of [SystemLog]. *)
Definition get_logs (self : ActivityLogger) (event_type : option string)
    (limit offset : Z) : M store (list SystemLog) :=
  try_except
    (match Session self with
     | None =>
         emit (logger_error "Cannot get logs: Session is not initialized") ;;;
         ret []
     | Some eng =>
         fun s =>
           let wanted :=
             match event_type with
             | Some t => if PyStr.truthy t then Some t else None
             | None => None
             end in
           match execute eng wanted limit offset (system_logs s) with
           | inl err => raise (exn_of err) s
           | inr result => ret result s
           end
     end)
    (fun e =>
       emit (logger_error ("Error retrieving logs: " +:+ exn_str e)) ;;;
       ret []).

End Environment.

(** The module before [get_logger] is first called. *)
Definition initial_store : store := Store [] [] 0 None 0.

Definition no_env : string -> option string := λ _, None.

Definition no_error {A} : A -> option error := λ _, None.

(** A stand-in for [json.dumps] in the examples: objects other than
    integers and strings cannot be serialised. *)
Definition demo_dumps (d : list (string * value)) : error + string :=
  if forallb (λ kv, match kv.2 with VObject _ => false | _ => true end) d
  then inr (PyStr.join ", " (fst <$> d))
  else inl (Error "TypeError" "Object is not JSON serializable").

End ActivityLogger.

(** ** components/pages/activity_log_view.py *)

Module ActivityLogView.
Import Py ActivityLogger.
Local Open Scope py_scope.

(** A row of the table shown: the columns kept by [columns_to_display],
    without [log_id], which [SystemLog] leaves out. *)
Record shown_log := Shown {
  activity_type : string;
  shown_description : string;
  shown_user : option string;
  shown_timestamp : nat
}.

Inductive st_element :=
| st_info (msg : string)
| st_dataframe (rows : list shown_log).

(** The logger's module and the screen. *)
Record page := Page {
  logger_store : ActivityLogger.store;
  screen : list st_element
}.

(** A call into [activity_logger.py]: it does not touch the screen. *)
Definition call_logger {A} (m : M ActivityLogger.store A) : M page A :=
  fun p =>
    let '(r, s) := m (logger_store p) in
    (r, Page s (screen p)).

Definition st_show (e : st_element) : M page unit :=
  modify (fun p => Page (logger_store p) (screen p ++ [e])).

Definition display (log : SystemLog) : shown_log :=
  Shown (event_type log) (description log) (user log) (timestamp log).

Section Environment.

Variable getenv : string -> option string.
Variable create_engine_error : string -> option error.
Variable create_all_error : engine_t -> option error.
Variable execute :
  engine_t -> option string -> Z -> Z -> list SystemLog
  -> error + list SystemLog.

(** Lines 9-41.  A data frame made from a list of rows is empty exactly
    when the list is, and it has every column asked for. *)
Definition render_activity_logs (engine_arg : option engine_t)
  : M page unit :=
  logger <- call_logger
              (get_logger getenv create_engine_error create_all_error
                          engine_arg) ;;
  logs <- call_logger (get_logs execute logger None 50 0) ;;
  match logs with
  | _ :: _ => st_show (st_dataframe (display <$> logs))
  | [] => st_show (st_info "No logs found")
  end.

End Environment.

End ActivityLogView.

(** ** components/pages/tasks_summariser.py: the employee selector *)

Module TasksSummariser.

(** Line 197, the entries of the selector: [f"{code} - {name}"]. *)
Definition employee_option (employee_code employee_name : string) : string :=
  employee_code +:+ " - " +:+ employee_name.

(** Line 265:
    [selected_employee_display.split (' - ')[0] if selected_employee_display
     else None]. *)
Definition selected_employee (selected_employee_display : string)
  : option string :=
  if PyStr.truthy selected_employee_display
  then head (PyStr.split " - " selected_employee_display)
  else None.

End TasksSummariser.

(** ** components/pages/report.py: the project selector and the team lists *)

Module Report.

(** Line 271, the entries of the selector:
    [f"{row['project_name']} ({row['project_id']})"]. *)
Definition project_option (project_name project_id : string) : string :=
  project_name +:+ " (" +:+ project_id +:+ ")".

(** Line 276: [selected_project.split ("(")[-1].rstrip (")")]. *)
Definition project_id_of (selected_project : string) : string :=
  PyStr.rstrip ")" (default "" (last (PyStr.split "(" selected_project))).

(** Line 277: [selected_project.split (" (")[0]]. *)
Definition project_name_of (selected_project : string) : string :=
  default "" (head (PyStr.split " (" selected_project)).

(** The columns of a row of the allocation history that the team lists
    read; [effective_to] is [None] where the frame holds a missing value. *)
Record allocation := Allocation {
  employee_code : string;
  allocation_status : string;
  effective_from : nat;
  effective_to : option nat
}.

(** [Series.unique ()]: the values in the order of their first
    appearance. *)
Fixpoint unique (l : list string) : list string :=
  match l with
  | [] => []
  | x :: l' => x :: filter (λ y, y ≠ x) (unique l')
  end.

(** Lines 325-328. *)
Definition current_employees (project_data : list allocation) : list string :=
  unique (employee_code
          <$> filter (λ r, allocation_status r = "Active"
                           ∧ effective_to r = None) project_data).

(** Lines 330-332. *)
Definition past_employees (project_data : list allocation) : list string :=
  unique (employee_code
          <$> filter (λ r, employee_code r ∉ current_employees project_data)
                project_data).

(** Lines 196-197, the counts of the document: [nunique] of all codes and
    of the codes with an active allocation. *)
Definition total_employees (project_data : list allocation) : nat :=
  length (unique (employee_code <$> project_data)).

Definition active_employees (project_data : list allocation) : nat :=
  length (unique (employee_code
                  <$> filter (λ r, allocation_status r = "Active")
                        project_data)).

End Report.

(** * Part II: properties *)

(** ** Strings *)

Module PyStrFacts.
Import PyStr.

Lemma append_nil (t : string) : "" +:+ t = t.
Proof. reflexivity. Qed.

Lemma append_cons (c : ascii) (s t : string) :
  String c s +:+ t = String c (s +:+ t).
Proof. reflexivity. Qed.

Lemma prefix_append (a b : string) :
  String.prefix a b = true ↔ ∃ post, b = a +:+ post.
Proof.
  revert b. induction a as [|c a IH]; intros b.
  - split; [intros _; exists b; reflexivity | intros _; destruct b; reflexivity].
  - destruct b as [|d b].
    + split; [discriminate | intros [post H]; rewrite append_cons in H; discriminate].
    + cbn [String.prefix]. destruct (ascii_dec c d) as [->|Hne].
      * rewrite IH. split; intros [post H]; exists post.
        -- rewrite append_cons. congruence.
        -- rewrite append_cons in H. congruence.
      * split; [discriminate|].
        intros [post H]. rewrite append_cons in H. congruence.
Qed.

(** [contains] decides substring containment. *)
Lemma contains_substring (a b : string) :
  contains a b = true ↔ substring_of a b.
Proof.
  unfold substring_of. induction b as [|d b IH].
  - cbn [contains]. rewrite orb_false_r, prefix_append. split.
    + intros [post H]. exists "", post. exact H.
    + intros ([|c pre] & post & H).
      * exists post. exact H.
      * rewrite append_cons in H. discriminate.
  - cbn [contains]. rewrite orb_true_iff, prefix_append, IH. split.
    + intros [[post H] | (pre & post & H)].
      * exists "", post. exact H.
      * exists (String d pre), post. rewrite append_cons. congruence.
    + intros ([|c pre] & post & H).
      * left. exists post. exact H.
      * right. rewrite append_cons in H. exists pre, post. congruence.
Qed.

Lemma contains_not_substring (a b : string) :
  contains a b = false ↔ ¬ substring_of a b.
Proof.
  rewrite <- contains_substring. destruct (contains a b); split; done.
Qed.

End PyStrFacts.

(** ** The upload page *)

Module FileUploadFacts.
Import Py PyStr FileUpload.

Section Page.

Variable str_lower : string -> string.
Variable required_files : list (string * string).
Variable upload_folder : string -> string.
Variable open_wb_error : string -> option error.

Local Abbreviation rtype := (record_type str_lower required_files).
Local Abbreviation path := (save_path upload_folder).
Local Abbreviation step := (upload_step str_lower required_files upload_folder open_wb_error).
Local Abbreviation loop := (upload_loop str_lower required_files upload_folder open_wb_error).
Local Abbreviation render := (render_file_upload str_lower required_files upload_folder open_wb_error).


Lemma fragment_in_no_match (type_name file_name : string) :
  fragment_in str_lower type_name file_name = false
  ↔ ¬ matches str_lower type_name file_name.
Proof. apply PyStrFacts.contains_not_substring. Qed.

Lemma file_type_of_skip (pre items : list (string * string)) (file_name : string) :
  Forall (λ e, ¬ matches str_lower e.2 file_name) pre →
  file_type_of str_lower (pre ++ items) file_name
  = file_type_of str_lower items file_name.
Proof.
  induction 1 as [|[k frag] pre Hno _ IH]; [reflexivity|].
  cbn [app file_type_of]. apply fragment_in_no_match in Hno.
  cbn [snd] in Hno. rewrite Hno. exact IH.
Qed.


(** What one turn of the loop does, case by case. *)
Lemma upload_step_eq (f : uploaded_file) (l : locals) (w : world) :
  step f l w =
  match rtype f with
  | Some k =>
      match open_wb_error (path k (name f)) with
      | Some e => (Raise (exn_of e), w)
      | None =>
          (Ok (Locals (<[k := path k (name f)]> (files_dict l))
                      (unrecognized_files l)),
           World (<[path k (name f) := getbuffer f]> (fs w))
                 (csv_upload_log w) (screen w))
      end
  | None =>
      (Ok (Locals (files_dict l) (unrecognized_files l ++ [name f])), w)
  end.
Proof.
  unfold upload_step, record_type.
  destruct (recognized _) as [k|]; [|reflexivity].
  unfold bind, write_file.
  destruct (open_wb_error _); reflexivity.
Qed.

Lemma upload_loop_cons (f : uploaded_file) (rest : list uploaded_file)
    (l : locals) (w : world) :
  loop (f :: rest) l w =
  match step f l w with
  | (Ok l1, w1) => loop rest l1 w1
  | (Raise e, w1) => (Raise e, w1)
  end.
Proof. reflexivity. Qed.

(** A turn that returns either stored the file under its record type or
    noted its name. *)
Lemma upload_step_ok (f : uploaded_file) (l l1 : locals) (w w1 : world) :
  step f l w = (Ok l1, w1) →
  (∃ k, rtype f = Some k
        ∧ files_dict l1 = <[k := path k (name f)]> (files_dict l)
        ∧ unrecognized_files l1 = unrecognized_files l)
  ∨ (rtype f = None
     ∧ files_dict l1 = files_dict l
     ∧ unrecognized_files l1 = unrecognized_files l ++ [name f]).
Proof.
  rewrite upload_step_eq. destruct (rtype f) as [k|].
  - destruct (open_wb_error _); [discriminate|].
    intros [= <- <-]. left. exists k. done.
  - intros [= <- <-]. right. done.
Qed.

Lemma upload_loop_ok_cons (f : uploaded_file) (rest : list uploaded_file)
    (l l' : locals) (w w' : world) :
  loop (f :: rest) l w = (Ok l', w') →
  ∃ l1 w1, step f l w = (Ok l1, w1) ∧ loop rest l1 w1 = (Ok l', w').
Proof.
  rewrite upload_loop_cons. destruct (step f l w) as [[l1|e] w1]; [|discriminate].
  intros H. exists l1, w1. done.
Qed.

(** Files of other record types leave the entry of [k] alone. *)
Lemma upload_loop_lookup_other (batch : list uploaded_file) (k : string)
    (l l' : locals) (w w' : world) :
  loop batch l w = (Ok l', w') →
  Forall (λ g, rtype g ≠ Some k) batch →
  files_dict l' !! k = files_dict l !! k.
Proof.
  revert l w. induction batch as [|f rest IH]; intros l w Hrun Hall.
  - injection Hrun as <- <-. reflexivity.
  - apply upload_loop_ok_cons in Hrun as (l1 & w1 & Hstep & Hrest).
    apply Forall_cons in Hall as [Hf Hall].
    rewrite (IH _ _ Hrest Hall).
    apply upload_step_ok in Hstep as [(k' & Hk' & -> & _) | (_ & -> & _)];
      [|reflexivity].
    apply lookup_insert_ne. congruence.
Qed.

(** The last file of a record type is the one found in the mapping. *)
Lemma upload_loop_lookup_last (b1 b2 : list uploaded_file) (f : uploaded_file)
    (k : string) (l l' : locals) (w w' : world) :
  loop (b1 ++ f :: b2) l w = (Ok l', w') →
  rtype f = Some k →
  Forall (λ g, rtype g ≠ Some k) b2 →
  files_dict l' !! k = Some (path k (name f)).
Proof.
  revert l w. induction b1 as [|g b1 IH]; intros l w Hrun Hf Hall.
  - cbn [app] in Hrun.
    apply upload_loop_ok_cons in Hrun as (l1 & w1 & Hstep & Hrest).
    rewrite (upload_loop_lookup_other _ _ _ _ _ _ Hrest Hall).
    apply upload_step_ok in Hstep as [(k' & Hk' & -> & _) | (Hnone & _)];
      [|congruence].
    assert (k' = k) as -> by congruence. apply lookup_insert_eq.
  - cbn [app] in Hrun.
    apply upload_loop_ok_cons in Hrun as (l1 & w1 & _ & Hrest).
    exact (IH _ _ Hrest Hf Hall).
Qed.

(** The names noted are those of the files that are not recognized, in
    the order of the batch. *)
Lemma upload_loop_unrecognized (batch : list uploaded_file)
    (l l' : locals) (w w' : world) :
  loop batch l w = (Ok l', w') →
  unrecognized_files l'
  = unrecognized_files l ++ unrecognized_names str_lower required_files batch.
Proof.
  unfold unrecognized_names.
  revert l w. induction batch as [|f rest IH]; intros l w Hrun.
  - injection Hrun as <- <-. cbn. by rewrite app_nil_r.
  - apply upload_loop_ok_cons in Hrun as (l1 & w1 & Hstep & Hrest).
    rewrite (IH _ _ Hrest).
    apply upload_step_ok in Hstep as [(k & Hk & _ & ->) | (Hnone & _ & ->)].
    + rewrite filter_cons_False; [reflexivity | congruence].
    + rewrite filter_cons_True by done. cbn. by rewrite <- app_assoc.
Qed.

(** Every entry of the mapping was there before or is the saved copy of a
    recognized file of the batch, under that file's record type. *)
Lemma upload_loop_entries (batch : list uploaded_file) (k p : string)
    (l l' : locals) (w w' : world) :
  loop batch l w = (Ok l', w') →
  files_dict l' !! k = Some p →
  files_dict l !! k = Some p
  ∨ ∃ f, f ∈ batch ∧ rtype f = Some k ∧ p = path k (name f).
Proof.
  revert l w. induction batch as [|f rest IH]; intros l w Hrun Hk.
  - injection Hrun as <- <-. by left.
  - apply upload_loop_ok_cons in Hrun as (l1 & w1 & Hstep & Hrest).
    destruct (IH _ _ Hrest Hk) as [H1 | (g & Hg & Hty & ->)].
    + apply upload_step_ok in Hstep as [(k' & Hk' & Hd & _) | (_ & Hd & _)].
      * rewrite Hd in H1. destruct (decide (k' = k)) as [->|Hne].
        -- rewrite lookup_insert_eq in H1. injection H1 as <-.
           right. exists f. split; [left|done].
        -- rewrite lookup_insert_ne in H1 by done. by left.
      * rewrite Hd in H1. by left.
    + right. exists g. split; [by right|done].
Qed.

(** The keys of the mapping are the record types met. *)
Lemma upload_loop_dom (batch : list uploaded_file)
    (l l' : locals) (w w' : world) :
  loop batch l w = (Ok l', w') →
  dom (files_dict l')
  = dom (files_dict l) ∪ list_to_set (record_types str_lower required_files batch).
Proof.
  unfold record_types.
  revert l w. induction batch as [|f rest IH]; intros l w Hrun.
  - injection Hrun as <- <-. cbn. by rewrite union_empty_r_L.
  - apply upload_loop_ok_cons in Hrun as (l1 & w1 & Hstep & Hrest).
    rewrite (IH _ _ Hrest). cbn [omap list_omap].
    apply upload_step_ok in Hstep as [(k & Hk & -> & _) | (Hnone & -> & _)].
    + rewrite Hk, dom_insert_L. cbn [list_to_set]. by rewrite (comm_L (∪) {[k]}), <- (assoc_L (∪)).
    + rewrite Hnone. reflexivity.
Qed.

(** The loop returns when every write succeeds. *)
Lemma upload_loop_returns (batch : list uploaded_file) (l : locals) (w : world) :
  (∀ p, open_wb_error p = None) →
  ∃ l' w', loop batch l w = (Ok l', w').
Proof.
  intros Hok. revert l w. induction batch as [|f rest IH]; intros l w.
  - eexists _, _. reflexivity.
  - rewrite upload_loop_cons, upload_step_eq.
    destruct (rtype f) as [k|]; [rewrite Hok|]; apply IH.
Qed.

(** What the loop leaves of the world, whether it returns or raises. *)
Lemma upload_loop_world (batch : list uploaded_file) (l : locals) (w : world) :
  csv_upload_log (loop batch l w).2 = csv_upload_log w
  ∧ screen (loop batch l w).2 = screen w
  ∧ ∀ p, (∀ f k, f ∈ batch → rtype f = Some k → path k (name f) ≠ p) →
         fs (loop batch l w).2 !! p = fs w !! p.
Proof.
  revert l w. induction batch as [|f rest IH]; intros l w.
  - done.
  - rewrite upload_loop_cons, upload_step_eq.
    destruct (rtype f) as [k|] eqn:Hk.
    + destruct (open_wb_error _).
      * done.
      * destruct (IH (Locals (<[k := path k (name f)]> (files_dict l))
                             (unrecognized_files l))
                     (World (<[path k (name f) := getbuffer f]> (fs w))
                            (csv_upload_log w) (screen w)))
          as (Hlog & Hscr & Hfs).
        split; [exact Hlog|]. split; [exact Hscr|].
        intros p Hp. rewrite Hfs.
        -- cbn. apply lookup_insert_ne. apply (Hp f k); [left|done].
        -- intros g k' Hg. apply Hp. by right.
    + destruct (IH (Locals (files_dict l) (unrecognized_files l ++ [name f])) w)
        as (Hlog & Hscr & Hfs).
      split; [exact Hlog|]. split; [exact Hscr|].
      intros p Hp. apply Hfs. intros g k' Hg. apply Hp. by right.
Qed.

(** A batch without a recognized file leaves the world as it was. *)
Lemma upload_loop_unrecognized_only (batch : list uploaded_file)
    (l : locals) (w : world) :
  Forall (λ f, rtype f = None) batch →
  loop batch l w
  = (Ok (Locals (files_dict l) (unrecognized_files l ++ (name <$> batch))), w).
Proof.
  intros H. revert l. induction H as [|f rest Hf _ IH]; intros l.
  - destruct l as [d u]. cbn. by rewrite app_nil_r.
  - rewrite upload_loop_cons, upload_step_eq, Hf, IH. cbn.
    by rewrite <- app_assoc.
Qed.

(** How [render_file_upload] follows from the loop. *)
Lemma render_file_upload_ok (batch : list uploaded_file) (clicked : bool)
    (w w' : world) (r : option (gmap string string)) :
  render batch clicked w = (Ok r, w') →
  ∃ l w1,
    loop batch (Locals ∅ []) w = (Ok l, w1)
    ∧ (files_dict l = ∅ → r = None ∧ w' = w1)
    ∧ (files_dict l ≠ ∅ →
       r = (if clicked then Some (files_dict l) else None)
       ∧ w' = World (fs w1) (csv_upload_log w1)
                    (screen w1 ++ [status_message l])).
Proof.
  destruct batch as [|f rest].
  - intros [= <- <-]. exists (Locals ∅ []), w. done.
  - unfold render_file_upload, bind.
    destruct (loop (f :: rest) (Locals ∅ []) w) as [[l|e] w1]; [|discriminate].
    intros H. exists l, w1. split; [reflexivity|].
    destruct (decide (files_dict l = ∅)) as [He|Hne].
    + injection H as <- <-. done.
    + injection H as <- <-. done.
Qed.

(** The copy of a recognized file is on disk after the loop, unless a
    later file of the batch is saved under the same path. *)
Lemma upload_loop_saved (b1 b2 : list uploaded_file) (f : uploaded_file)
    (k : string) (l l' : locals) (w w' : world) :
  loop (b1 ++ f :: b2) l w = (Ok l', w') →
  rtype f = Some k →
  (∀ g k', g ∈ b2 → rtype g = Some k' → path k' (name g) ≠ path k (name f)) →
  fs w' !! path k (name f) = Some (getbuffer f).
Proof.
  revert l w. induction b1 as [|g b1 IH]; intros l w Hrun Hf Hlater.
  - cbn [app] in Hrun.
    apply upload_loop_ok_cons in Hrun as (l1 & w1 & Hstep & Hrest).
    destruct (upload_loop_world b2 l1 w1) as (_ & _ & Hfs).
    rewrite Hrest in Hfs. cbn [snd] in Hfs. rewrite Hfs by exact Hlater.
    rewrite upload_step_eq, Hf in Hstep.
    destruct (open_wb_error _); [discriminate|].
    injection Hstep as _ <-. cbn. apply lookup_insert_eq.
  - cbn [app] in Hrun.
    apply upload_loop_ok_cons in Hrun as (l1 & w1 & _ & Hrest).
    exact (IH _ _ Hrest Hf Hlater).
Qed.

(** When every write succeeds and some file is recognized, the page gets
    as far as the pipeline. *)
Lemma render_file_upload_returns (batch : list uploaded_file) (w : world)
    (f : uploaded_file) (k : string) :
  (∀ p, open_wb_error p = None) →
  f ∈ batch → rtype f = Some k →
  ∃ l w1,
    loop batch (Locals ∅ []) w = (Ok l, w1)
    ∧ render batch true w
      = (Ok (Some (files_dict l)),
         World (fs w1) (csv_upload_log w1) (screen w1 ++ [status_message l])).
Proof.
  intros Hok Hf Hk.
  destruct (upload_loop_returns batch (Locals ∅ []) w Hok) as (l & w1 & Hloop).
  exists l, w1. split; [exact Hloop|].
  assert (Hne : files_dict l ≠ ∅).
  { intros He. pose proof (upload_loop_dom _ _ _ _ _ Hloop) as Hdom.
    rewrite He, dom_empty_L in Hdom.
    assert (k ∈ (∅ : gset string)) as Hin; [|by apply elem_of_empty in Hin].
    rewrite Hdom. apply elem_of_union_r, elem_of_list_to_set.
    unfold record_types. apply list_elem_of_omap. by exists f. }
  destruct batch as [|g rest]; [by apply elem_of_nil in Hf|].
  unfold render_file_upload, bind. rewrite Hloop.
  destruct (decide (files_dict l = ∅)); [done|]. reflexivity.
Qed.

(** The loop over two batches in a row. *)
Lemma upload_loop_app (b1 b2 : list uploaded_file) (l : locals) (w : world) :
  loop (b1 ++ b2) l w =
  match loop b1 l w with
  | (Ok l1, w1) => loop b2 l1 w1
  | (Raise e, w1) => (Raise e, w1)
  end.
Proof.
  revert l w. induction b1 as [|f b1 IH]; intros l w; [reflexivity|].
  cbn [app]. rewrite !upload_loop_cons.
  destruct (step f l w) as [[l1|e] w1]; [apply IH|reflexivity].
Qed.

(** The loop returns when the copies of its recognized files can be
    written. *)
Lemma upload_loop_returns_if (batch : list uploaded_file) (l : locals)
    (w : world) :
  (∀ f k, f ∈ batch → rtype f = Some k →
          open_wb_error (path k (name f)) = None) →
  ∃ l' w', loop batch l w = (Ok l', w').
Proof.
  revert l w. induction batch as [|f rest IH]; intros l w Hok.
  - eexists _, _. reflexivity.
  - rewrite upload_loop_cons, upload_step_eq.
    destruct (rtype f) as [k|] eqn:Hf.
    + rewrite (Hok f k) by (done || left). apply IH.
      intros g k' Hg. apply Hok. by right.
    + apply IH. intros g k' Hg. apply Hok. by right.
Qed.


(** A match on an entry whose key is the empty string fails the test
    [if file_type:], so that the file is treated like one without a match. *)
Lemma empty_key_not_stored (f : uploaded_file) :
  file_type_of str_lower required_files (name f) = Some "" → rtype f = None.
Proof. unfold record_type. by intros ->. Qed.

Lemma nonempty_key_stored (f : uploaded_file) (k : string) :
  file_type_of str_lower required_files (name f) = Some k → k ≠ "" →
  rtype f = Some k.
Proof. unfold record_type. intros -> Hk. by destruct k. Qed.




(** The mapping given to the pipeline is the one the loop has built. *)
Lemma pipeline_mapping_is_files_dict (batch : list uploaded_file)
    (w w' : world) (m : gmap string string) :
  render batch true w = (Ok (Some m), w') →
  ∃ l w1, loop batch (Locals ∅ []) w = (Ok l, w1) ∧ m = files_dict l.
Proof.
  intros Hrender.
  apply render_file_upload_ok in Hrender as (l & w1 & Hloop & Hempty & Hsome).
  exists l, w1. split; [exact Hloop|].
  destruct (decide (files_dict l = ∅)) as [He|Hne].
  - by destruct (Hempty He).
  - destruct (Hsome Hne) as [Hr _]. congruence.
Qed.

(** C9. Of the files of a batch that are stored under one record type,
    the mapping given to the pipeline holds the last one, the earlier ones
    being overwritten under the same key; a record type under which no
    file of the batch is stored has no entry; so the mapping holds at most
    one file for each record type, and that file is of this type. *)
Theorem last_file_of_type_wins (batch : list uploaded_file) (w w' : world)
    (m : gmap string string) (k : string) :
  render batch true w = (Ok (Some m), w') →
  (∀ b1 f b2,
     batch = b1 ++ f :: b2 → rtype f = Some k →
     Forall (λ g, rtype g ≠ Some k) b2 →
     m !! k = Some (path k (name f)))
  ∧ (Forall (λ g, rtype g ≠ Some k) batch → m !! k = None)
  ∧ (∀ p, m !! k = Some p →
          ∃ f, f ∈ batch ∧ rtype f = Some k ∧ p = path k (name f)).
Proof.
  intros Hrender.
  destruct (pipeline_mapping_is_files_dict batch w w' m Hrender)
    as (l & w1 & Hloop & ->).
  split; [|split].
  - intros b1 f b2 -> Hf Hall.
    exact (upload_loop_lookup_last _ _ _ _ _ _ _ _ Hloop Hf Hall).
  - intros Hall. rewrite (upload_loop_lookup_other _ _ _ _ _ _ Hloop Hall).
    apply lookup_empty.
  - intros p Hk.
    destruct (upload_loop_entries _ _ _ _ _ _ _ Hloop Hk) as [H0|H1];
      [|exact H1].
    cbn in H0. by rewrite lookup_empty in H0.
Qed.

End Page.


(** The classifier at work on some names. *)
Example classify_upper_case :
  file_type_of lower demo_files "EMPLOYEE.CSV" = Some "employee".
Proof. vm_compute. reflexivity. Qed.

Example classify_first_of_two :
  file_type_of lower demo_files "project_timesheet.csv" = Some "project".
Proof. vm_compute. reflexivity. Qed.

(** With an entry whose key is empty the match is found and then dropped
    by the truth test. *)
Example classify_empty_key :
  file_type_of lower [("", "emp")] "emp.csv" = Some ""
  ∧ record_type lower [("", "emp")] (csv "emp.csv") = None.
Proof. split; vm_compute; reflexivity. Qed.

(** Membership in a batch written out, file by file. *)
Ltac each_file H :=
  repeat (apply elem_of_cons in H as [->|H]);
  [.. | by apply elem_of_nil in H].





(** When no file of the batch is recognized nothing is shown and nothing
    is given to the pipeline. *)
Example nothing_recognized_nothing_shown :
  demo_render [csv "notes.csv"; csv "readme.csv"] empty_world
  = (Ok None, empty_world).
Proof.
  unfold demo_render, render_file_upload, bind.
  rewrite upload_loop_unrecognized_only by (repeat constructor).
  reflexivity.
Qed.

(** Two files of the record type [employee]: the mapping holds the
    second. *)
Lemma last_file_of_type_wins_witness :
  ∃ m w',
    demo_render clashing_batch empty_world = (Ok (Some m), w')
    ∧ m !! "employee" = Some "uploads/employee_employee_feb.csv"
    ∧ m !! "timesheet" = None.
Proof.
  destruct (render_file_upload_returns lower demo_files uploads no_error
              clashing_batch empty_world (csv "project.csv") "project")
    as (l & w1 & _ & Hrender);
    [done | set_solver | vm_compute; reflexivity |].
  eexists _, _. split; [exact Hrender|].
  destruct (last_file_of_type_wins lower demo_files uploads no_error
              clashing_batch empty_world _ _ "employee" Hrender)
    as (Hlast & _ & _).
  destruct (last_file_of_type_wins lower demo_files uploads no_error
              clashing_batch empty_world _ _ "timesheet" Hrender)
    as (_ & Hnone & _).
  split.
  - apply (Hlast [csv "employee_jan.csv"] (csv "employee_feb.csv")
             [csv "project.csv"; csv "notes.csv"]).
    + reflexivity.
    + vm_compute. reflexivity.
    + repeat constructor; vm_compute; discriminate.
  - apply Hnone. repeat constructor; vm_compute; discriminate.
Defined.

End FileUploadFacts.

(** ** The upload ledger *)

Module LedgerFacts.
Import Ledger.

(** Every row of a file is counted once, as loaded or as rejected. *)
Lemma loaded_or_rejected (rows : list row_outcome) :
  length rows = count_loaded rows + count_rejected rows.
Proof.
  unfold count_loaded, count_rejected.
  induction rows as [|r rows IH]; [reflexivity|].
  destruct r.
  - rewrite filter_cons_True by done. rewrite filter_cons_False by done.
    cbn. by rewrite IH.
  - rewrite filter_cons_False by done. rewrite filter_cons_True by done.
    cbn. rewrite IH. lia.
Qed.

Lemma upload_log_row_counts (id : nat) (type : string) (now : nat)
    (o : file_outcome) :
  counts_add_up (upload_log_row id type now o).
Proof.
  unfold counts_add_up. destruct o as [|rows|rows]; cbn.
  - reflexivity.
  - reflexivity.
  - apply loaded_or_rejected.
Qed.

Lemma log_file_counts (type : string) (now : nat) (o : file_outcome)
    (l : ledger) :
  Forall counts_add_up (upload_log l) →
  Forall counts_add_up (upload_log (log_file type now o l)).
Proof.
  intros H. cbn. apply Forall_app. split; [exact H|].
  constructor; [apply upload_log_row_counts | constructor].
Qed.

(** The ledger only grows. *)
Lemma log_batch_appends (files : list (string * nat * file_outcome))
    (l : ledger) :
  upload_log l `prefix_of` upload_log (log_batch files l).
Proof.
  revert l. induction files as [|[[type now] o] rest IH]; intros l.
  - reflexivity.
  - cbn [log_batch]. etrans; [|apply IH]. cbn. by apply prefix_app_r.
Qed.

(** C3.  In every row that the ledger writes to the upload log the
    processed records are the successful and the failed ones together;
    rows written by earlier batches stay as they are. *)
Theorem upload_log_counts_add_up (files : list (string * nat * file_outcome))
    (l : ledger) :
  Forall counts_add_up (upload_log l) →
  Forall counts_add_up (upload_log (log_batch files l)).
Proof.
  revert l. induction files as [|[[type now] o] rest IH]; intros l H.
  - exact H.
  - cbn [log_batch]. apply IH. by apply log_file_counts.
Qed.

(** A batch of a partly rejected file, a malformed file and a file whose
    transaction failed. *)
Lemma upload_log_counts_add_up_witness :
  Forall counts_add_up
    (upload_log
       (log_batch
          [("employee", 1, resolved [row_loaded;
                                     row_rejected [("code", "", "required")];
                                     row_loaded]);
           ("timesheet", 2, malformed);
           ("project", 3, transaction_failed [row_loaded; row_loaded])]
          (Ledger [] []))).
Proof. apply upload_log_counts_add_up. cbn. constructor. Defined.

Example upload_log_rows :
  (λ r, (upload_status r, records_processed r, records_success r,
         records_failed r))
  <$> upload_log
        (log_batch
           [("employee", 1, resolved [row_loaded;
                                      row_rejected [("code", "", "required")];
                                      row_loaded]);
            ("timesheet", 2, malformed);
            ("project", 3, transaction_failed [row_loaded; row_loaded])]
           (Ledger [] []))
  = [(partial, 3, 2, 1); (failed, 0, 0, 0); (failed, 2, 0, 2)].
Proof. reflexivity. Qed.

End LedgerFacts.

(** ** The connection pool *)

Module DatabasePoolFacts.
Import Py DatabasePool.

Section Driver.

Variable fault : call -> list event -> option error.
Variable connection_of : list event -> connection.

Local Abbreviation invoke := (DatabasePool.invoke fault).
Local Abbreviation getconn := (DatabasePool.getconn fault connection_of).
Local Abbreviation get_connection :=
  (DatabasePool.get_connection fault connection_of).
Local Abbreviation get_cursor := (DatabasePool.get_cursor fault connection_of).
Local Abbreviation open_cursor := (DatabasePool.open_cursor fault).
Local Abbreviation construct := (DatabasePool.construct fault).

Lemma invoke_ok (c : call) (s : store) :
  fault c (trace s) = None → invoke c s = (Ok tt, record (called c) s).
Proof. unfold DatabasePool.invoke. by intros ->. Qed.

Lemma invoke_trace (c : call) (s : store) :
  (invoke c s).2 = record (called c) s.
Proof. unfold DatabasePool.invoke. by destruct (fault c (trace s)). Qed.

Lemma record_all_nil (s : store) : record_all [] s = s.
Proof. destruct s. unfold record_all. cbn. by rewrite app_nil_r. Qed.

Lemma record_record_all (e : event) (es : list event) (s : store) :
  record e (record_all es s) = record_all (es ++ [e]) s.
Proof. unfold record, record_all. cbn. by rewrite app_assoc. Qed.

Lemma record_all_record (e : event) (es : list event) (s : store) :
  record_all es (record e s) = record_all (e :: es) s.
Proof. unfold record, record_all. cbn. by rewrite <- app_assoc. Qed.

(** Whatever [getconn] raises derives from [Exception]. *)
Lemma getconn_raises_Exception (self : nat) (s s1 : store) (e : exn) :
  getconn self s = (Raise e, s1) → exn_is_Exception e = true.
Proof.
  unfold DatabasePool.getconn. destruct (_pool s !! self).
  - unfold bind, DatabasePool.invoke. destruct (fault _ _).
    + by intros [= <- _].
    + discriminate.
  - by intros [= <- _].
Qed.

(** C5.  Once [getconn] has handed out a connection, [get_connection]
    ends with [putconn] on that connection, whether the enclosed body
    returns, raises an exception that derives from [Exception] (which is
    logged first) or raises any other exception; the outcome of the body is
    passed on.  When [getconn] raises, no connection was taken and none is
    given back. *)
Theorem get_connection_gives_back {A} (self : nat)
    (body : connection -> M store A) (s : store) :
  (∀ conn s1 r s2,
     getconn self s = (Ok conn, s1) →
     body conn s1 = (r, s2) →
     let logged :=
       match r with
       | Raise e => if exn_is_Exception e then [getting_failed e] else []
       | Ok _ => []
       end in
     (get_connection self body s).2
     = record (called (pool_putconn conn)) (record_all logged s2)
     ∧ (fault (pool_putconn conn) (trace s2 ++ logged) = None →
        (get_connection self body s).1 = r))
  ∧ (∀ e s1,
       getconn self s = (Raise e, s1) →
       get_connection self body s = (Raise e, record (getting_failed e) s1)).
Proof.
  split.
  - intros conn s1 r s2 Hget Hbody logged. subst logged.
    unfold DatabasePool.get_connection. rewrite Hget.
    unfold try_finally, try_except. rewrite Hbody.
    destruct r as [a|e].
    + rewrite record_all_nil, app_nil_r.
      unfold DatabasePool.invoke. destruct (fault _ _); [|done].
      split; [done|discriminate].
    + destruct (exn_is_Exception e).
      * unfold bind, emit, modify, raise, DatabasePool.invoke. cbn.
        destruct (fault _ _); [|done]. split; [done|discriminate].
      * rewrite record_all_nil, app_nil_r.
        unfold DatabasePool.invoke. destruct (fault _ _); [|done].
        split; [done|discriminate].
  - intros e s1 Hget. pose proof (getconn_raises_Exception _ _ _ _ Hget) as He.
    unfold DatabasePool.get_connection. rewrite Hget.
    unfold try_except, raise. rewrite He. reflexivity.
Qed.

(** C4, as amended.  With a connection and a cursor at hand and a driver
    whose closing calls succeed: when the body returns, [get_cursor]
    commits, closes the cursor, gives the connection back and returns the
    body's result; when the body raises an exception that derives from
    [Exception], it rolls back, logs, closes the cursor, gives the
    connection back and raises the same exception; when the body raises an
    exception that does not derive from [Exception], it neither commits
    nor rolls back, closes the cursor, gives the connection back and
    raises the same exception. *)
Theorem get_cursor_winds_up {A} (self : nat) (body : cursor -> M store A)
    (s s1 s2 s3 : store) (conn : connection) (cur : cursor) (r : result A) :
  getconn self s = (Ok conn, s1) →
  open_cursor conn s1 = (Ok cur, s2) →
  body cur s2 = (r, s3) →
  (∀ c t, winds_up conn cur c → fault c t = None) →
  get_cursor self body s =
  match r with
  | Ok a =>
      (Ok a,
       record_all [called (conn_commit conn); called (cursor_close cur);
                   called (pool_putconn conn)] s3)
  | Raise e =>
      if exn_is_Exception e then
        (Raise e,
         record_all [called (conn_rollback conn); operation_failed e;
                     called (cursor_close cur); getting_failed e;
                     called (pool_putconn conn)] s3)
      else
        (Raise e,
         record_all [called (cursor_close cur); called (pool_putconn conn)]
                    s3)
  end.
Proof.
  intros Hget Hopen Hbody Hquiet.
  assert (Hcommit : ∀ t, fault (conn_commit conn) t = None)
    by (intros t; apply Hquiet; unfold winds_up; auto).
  assert (Hrollback : ∀ t, fault (conn_rollback conn) t = None)
    by (intros t; apply Hquiet; unfold winds_up; auto).
  assert (Hclose : ∀ t, fault (cursor_close cur) t = None)
    by (intros t; apply Hquiet; unfold winds_up; auto).
  assert (Hput : ∀ t, fault (pool_putconn conn) t = None)
    by (intros t; apply Hquiet; unfold winds_up; auto).
  unfold DatabasePool.get_cursor, DatabasePool.get_connection.
  rewrite Hget. unfold try_finally at 1. unfold try_except at 1.
  unfold bind at 1. rewrite Hopen.
  unfold try_finally, try_except, bind. rewrite Hbody.
  destruct r as [a|e].
  - unfold DatabasePool.invoke, ret. rewrite Hcommit. cbn [trace record].
    rewrite Hclose. cbn [trace record]. rewrite Hput.
    unfold record, record_all. cbn. by rewrite <- !app_assoc.
  - destruct (exn_is_Exception e) eqn:He.
    + unfold DatabasePool.invoke, emit, modify, raise.
      rewrite Hrollback. cbn [trace record]. rewrite Hclose. rewrite He.
      cbn [trace record]. rewrite Hput.
      unfold record, record_all, operation_failed, getting_failed. cbn.
      by rewrite <- !app_assoc.
    + unfold DatabasePool.invoke. rewrite Hclose. rewrite He.
      cbn [trace record]. rewrite Hput.
      unfold record, record_all. cbn. by rewrite <- !app_assoc.
Qed.

(** A [finally] clause that is one call into the driver: the call is
    made whatever came before it. *)
Lemma try_finally_invoke {A} (m : M store A) (c : call) (s : store) :
  (try_finally m (invoke c) s).2 = record (called c) (m s).2.
Proof.
  unfold try_finally. destruct (m s) as [r s1]. cbn [snd].
  rewrite <- invoke_trace. by destruct (invoke c s1) as [[[]|e] s2].
Qed.

(** An [except] clause whose handler only adds events adds events. *)
Lemma try_except_extends {A} (m : M store A) (h : exn -> M store A) (s : store) :
  (∀ e s1, ∃ es, trace (h e s1).2 = trace s1 ++ es) →
  ∃ es, trace (try_except m h s).2 = trace (m s).2 ++ es.
Proof.
  intros Hh. unfold try_except. destruct (m s) as [[a|e] s1]; cbn [snd].
  - exists []. by rewrite app_nil_r.
  - destruct (exn_is_Exception e); [apply Hh|].
    exists []. by rewrite app_nil_r.
Qed.

(** The cursor is closed and the connection given back also when the
    driver's closing calls fail: both calls are made after the body, the
    second one last. *)
Lemma get_cursor_always_closes {A} (self : nat) (body : cursor -> M store A)
    (s s1 s2 s3 : store) (conn : connection) (cur : cursor) (r : result A) :
  getconn self s = (Ok conn, s1) →
  open_cursor conn s1 = (Ok cur, s2) →
  body cur s2 = (r, s3) →
  ∃ es,
    trace (get_cursor self body s).2
    = trace s3 ++ es ++ [called (pool_putconn conn)]
    ∧ called (cursor_close cur) ∈ es.
Proof.
  intros Hget Hopen Hbody.
  unfold DatabasePool.get_cursor, DatabasePool.get_connection.
  rewrite Hget, try_finally_invoke.
  match goal with
  | |- context [try_except ?m ?h s1] =>
      destruct (try_except_extends m h s1) as [es3 H3]
  end.
  { intros e s'. exists [getting_failed e]. reflexivity. }
  cbn [trace record]. rewrite H3. clear H3.
  unfold bind at 1. rewrite Hopen. rewrite try_finally_invoke.
  match goal with
  | |- context [try_except ?m ?h s2] =>
      destruct (try_except_extends m h s2) as [es2 H2]
  end.
  { intros e s'. unfold bind.
    rewrite (surjective_pairing (invoke _ s')), invoke_trace.
    destruct (invoke _ s').1 as [[]|e'];
      [exists [called (conn_rollback conn); operation_failed e]
      |exists [called (conn_rollback conn)]];
      cbn; by rewrite <- ?app_assoc. }
  cbn [trace record]. rewrite H2. clear H2.
  assert (∃ es1,
            trace (bind (body cur)
                        (λ a, bind (invoke (conn_commit conn)) (λ _, ret a))
                        s2).2
            = trace s3 ++ es1) as [es1 ->].
  { unfold bind. rewrite Hbody. destruct r as [a|e].
    - exists [called (conn_commit conn)].
      rewrite (surjective_pairing (invoke _ s3)), invoke_trace.
      by destruct (invoke _ s3).1 as [[]|e'].
    - exists []. cbn. by rewrite app_nil_r. }
  exists (es1 ++ es2 ++ [called (cursor_close cur)] ++ es3). split.
  - by rewrite <- !app_assoc.
  - set_solver.
Qed.

(** *** The singleton *)

Lemma pool_builds_app (t u : list event) :
  pool_builds (t ++ u) = pool_builds t + pool_builds u.
Proof. unfold pool_builds. by rewrite filter_app, length_app. Qed.

Lemma pool_builds_call : pool_builds [called SimpleConnectionPool_new] = 1.
Proof. unfold pool_builds. by rewrite filter_cons_True. Qed.

Lemma pool_builds_error (msg : string) : pool_builds [logger_error msg] = 0.
Proof. unfold pool_builds. by rewrite filter_cons_False. Qed.

Lemma pool_builds_info (msg : string) : pool_builds [logger_info msg] = 0.
Proof. unfold pool_builds. by rewrite filter_cons_False. Qed.

(** Building the pool: one call to the driver, and the two class
    attributes stay as they are. *)
Lemma initialize_pool_effect (self : nat) (s : store) :
  pool_builds (trace (_initialize_pool fault self s).2)
  = S (pool_builds (trace s))
  ∧ _instance (_initialize_pool fault self s).2 = _instance s
  ∧ next_object (_initialize_pool fault self s).2 = next_object s
  ∧ ((_initialize_pool fault self s).1 = Ok tt
     ∨ ∃ e, (_initialize_pool fault self s).1 = Raise e).
Proof.
  unfold _initialize_pool, try_except, bind, DatabasePool.invoke, emit,
    modify, raise.
  destruct (fault SimpleConnectionPool_new (trace s)); cbn -[pool_builds].
  - rewrite !pool_builds_app, pool_builds_call, pool_builds_error.
    split; [lia|]. eauto.
  - rewrite !pool_builds_app, pool_builds_call, pool_builds_info.
    split; [lia|]. eauto.
Qed.

(** Once the class attribute is set every construction returns it. *)
Lemma construct_again (n : nat) (s : store) (self : nat) :
  _instance s = Some self → construct n s = (replicate n (Ok self), s).
Proof.
  intros H. induction n as [|n IH]; [reflexivity|].
  cbn [DatabasePool.construct replicate]. unfold __new__ at 1.
  rewrite H, IH. reflexivity.
Qed.

(** The first construction. *)
Lemma new_unfold (s : store) :
  _instance s = None →
  __new__ fault s =
  match _initialize_pool fault (next_object s)
          (Store (trace s) (Some (next_object s)) (_pool s)
                 (S (next_object s))) with
  | (Ok _, s2) => (Ok (next_object s), s2)
  | (Raise e, s2) => (Raise e, s2)
  end.
Proof. intros H. unfold __new__. rewrite H. reflexivity. Qed.

Lemma new_first (s : store) :
  _instance s = None →
  _instance (__new__ fault s).2 = Some (next_object s)
  ∧ pool_builds (trace (__new__ fault s).2) = S (pool_builds (trace s))
  ∧ ((__new__ fault s).1 = Ok (next_object s)
     ∨ ∃ e, (__new__ fault s).1 = Raise e).
Proof.
  intros H. rewrite (new_unfold s H).
  destruct (initialize_pool_effect (next_object s)
              (Store (trace s) (Some (next_object s)) (_pool s)
                     (S (next_object s))))
    as (Hb & Hi & _ & _).
  destruct (_initialize_pool fault _ _) as [[[]|e] s2]; cbn [fst snd] in *.
  - split; [exact Hi|]. split; [exact Hb|]. by left.
  - split; [exact Hi|]. split; [exact Hb|]. right. by exists e.
Qed.

(** The first construction on a driver that builds the pool: it returns
    the new instance, which has its pool. *)
Lemma new_builds (s : store) :
  _instance s = None →
  fault SimpleConnectionPool_new (trace s) = None →
  (__new__ fault s).1 = Ok (next_object s)
  ∧ is_Some (_pool (__new__ fault s).2 !! next_object s).
Proof.
  intros H Hok. rewrite (new_unfold s H).
  unfold _initialize_pool, try_except, bind, DatabasePool.invoke, emit, modify.
  cbn [trace]. rewrite Hok. cbn. split; [reflexivity|].
  rewrite lookup_insert_eq. by eexists.
Qed.

(** The first construction on a driver that cannot build the pool raises
    what the driver raised. *)
Lemma new_fails (s : store) (err : error) :
  _instance s = None →
  fault SimpleConnectionPool_new (trace s) = Some err →
  (__new__ fault s).1 = Raise (exn_of err).
Proof.
  intros H Hfail. rewrite (new_unfold s H).
  unfold _initialize_pool, try_except, bind, DatabasePool.invoke, emit,
    modify, raise.
  cbn [trace]. rewrite Hfail. reflexivity.
Qed.

(** C8.  [DatabasePool ()] is a singleton that is set up on first use:
    before the first construction no pool is built; when the driver builds
    the pool, every one of any number of constructions returns the same
    instance, allocated by the first one together with its pool; when the
    driver cannot build the pool, the first construction raises the
    driver's error; and in either case the driver is asked for a pool
    exactly once, by the first construction. *)
Theorem DatabasePool_is_singleton (n : nat) (s : store) :
  _instance s = None →
  construct 0 s = ([], s)
  ∧ (fault SimpleConnectionPool_new (trace s) = None →
     (construct (S n) s).1 = replicate (S n) (Ok (next_object s))
     ∧ _instance (construct (S n) s).2 = Some (next_object s)
     ∧ is_Some (_pool (construct (S n) s).2 !! next_object s))
  ∧ (∀ err, fault SimpleConnectionPool_new (trace s) = Some err →
            (construct 1 s).1 = [Raise (exn_of err)])
  ∧ pool_builds (trace (construct 1 s).2) = S (pool_builds (trace s))
  ∧ pool_builds (trace (construct (S n) s).2) = S (pool_builds (trace s)).
Proof.
  intros H. split; [reflexivity|].
  destruct (new_first s H) as (Hi & Hb & _).
  pose proof (new_builds s H) as Hbuilds.
  pose proof (λ err, new_fails s err H) as Hfails.
  cbn [DatabasePool.construct].
  destruct (__new__ fault s) as [first s1]; cbn [fst snd] in *.
  rewrite (construct_again n s1 _ Hi). cbn [fst snd].
  split; [|split; [|done]].
  - intros Hok. destruct (Hbuilds Hok) as [-> Hpool]. done.
  - intros err Herr. by rewrite (Hfails err Herr).
Qed.

End Driver.

(** A body that raises [ValueError] under a working pool, and a scope
    opened on an instance without a pool. *)
Lemma get_connection_gives_back_witness :
  (get_connection no_fault (λ _, 7) 0
     (λ _, raise ValueError : M store unit) ready_store)
  = (Raise ValueError,
     record_all [called pool_getconn; getting_failed ValueError;
                 called (pool_putconn 7)] ready_store)
  ∧ (get_connection no_fault (λ _, 7) 0
       (λ _, ret tt : M store unit) initial_store).1
    = Raise (Exn "AttributeError" true
               "'NoneType' object has no attribute 'getconn'").
Proof.
  split.
  - destruct (proj1 (get_connection_gives_back no_fault (λ _, 7) 0
                       (λ _, raise ValueError : M store unit) ready_store)
                7 (record (called pool_getconn) ready_store)
                (Raise ValueError) (record (called pool_getconn) ready_store)
                eq_refl eq_refl) as [Hstore Hresult].
    rewrite (surjective_pairing (get_connection _ _ _ _ _)).
    rewrite Hstore, Hresult; reflexivity.
  - rewrite (proj2 (get_connection_gives_back no_fault (λ _, 7) 0
                      (λ _, ret tt : M store unit) initial_store)
               _ _ eq_refl).
    reflexivity.
Defined.

(** C4, the claim as stated fails: when the body raises
    [KeyboardInterrupt], which does not derive from [Exception], the
    exception reaches the caller and the cursor is closed, but no rollback
    is issued. *)
Lemma no_rollback_on_KeyboardInterrupt :
  get_cursor no_fault (λ _, 7) 0
    (λ _, raise KeyboardInterrupt : M store unit) ready_store
  = (Raise KeyboardInterrupt,
     Store [called pool_getconn; called (conn_cursor 7);
            called (cursor_close (Cursor 7 1)); called (pool_putconn 7)]
           (Some 0) {[0 := 0]} 1)
  ∧ called (conn_rollback 7)
    ∉ trace (get_cursor no_fault (λ _, 7) 0
               (λ _, raise KeyboardInterrupt : M store unit) ready_store).2.
Proof.
  assert (H : get_cursor no_fault (λ _, 7) 0
                (λ _, raise KeyboardInterrupt : M store unit) ready_store
              = (Raise KeyboardInterrupt,
                 Store [called pool_getconn; called (conn_cursor 7);
                        called (cursor_close (Cursor 7 1));
                        called (pool_putconn 7)]
                       (Some 0) {[0 := 0]} 1)) by reflexivity.
  split; [exact H|]. rewrite H. cbn [snd trace].
  intros Hin. repeat (apply elem_of_cons in Hin as [Hin|Hin]; [discriminate|]).
  by apply elem_of_nil in Hin.
Qed.

(** A body that returns and a body that raises [ValueError]. *)
Lemma get_cursor_winds_up_witness :
  get_cursor no_fault (λ _, 7) 0 (λ _, ret 5 : M store nat) ready_store
  = (Ok 5,
     record_all [called (conn_commit 7); called (cursor_close (Cursor 7 1));
                 called (pool_putconn 7)]
       (record_all [called pool_getconn; called (conn_cursor 7)] ready_store))
  ∧ get_cursor no_fault (λ _, 7) 0
      (λ _, raise ValueError : M store nat) ready_store
    = (Raise ValueError,
       record_all [called (conn_rollback 7); operation_failed ValueError;
                   called (cursor_close (Cursor 7 1));
                   getting_failed ValueError; called (pool_putconn 7)]
         (record_all [called pool_getconn; called (conn_cursor 7)]
                     ready_store)).
Proof.
  split.
  - apply (get_cursor_winds_up no_fault (λ _, 7) 0 (λ _, ret 5 : M store nat)
             ready_store (record (called pool_getconn) ready_store)
             (record_all [called pool_getconn; called (conn_cursor 7)]
                         ready_store)
             (record_all [called pool_getconn; called (conn_cursor 7)]
                         ready_store)
             7 (Cursor 7 1) (Ok 5));
      reflexivity.
  - apply (get_cursor_winds_up no_fault (λ _, 7) 0
             (λ _, raise ValueError : M store nat)
             ready_store (record (called pool_getconn) ready_store)
             (record_all [called pool_getconn; called (conn_cursor 7)]
                         ready_store)
             (record_all [called pool_getconn; called (conn_cursor 7)]
                         ready_store)
             7 (Cursor 7 1) (Raise ValueError));
      reflexivity.
Defined.

(** Three constructions in a freshly loaded module, and the construction
    of line 76 when the database refuses connections. *)
Lemma DatabasePool_is_singleton_witness :
  (construct no_fault 3 initial_store).1 = [Ok 0; Ok 0; Ok 0]
  ∧ pool_builds (trace (construct no_fault 3 initial_store).2) = 1
  ∧ (construct no_database 1 initial_store).1
    = [Raise (Exn "OperationalError" true "connection refused")].
Proof.
  destruct (DatabasePool_is_singleton no_fault 2 initial_store eq_refl)
    as (_ & Hsame & _ & _ & Honce).
  destruct (DatabasePool_is_singleton no_database 0 initial_store eq_refl)
    as (_ & _ & Hraise & _).
  split; [exact (proj1 (Hsame eq_refl))|]. split; [exact Honce|].
  exact (Hraise _ eq_refl).
Defined.

End DatabasePoolFacts.

(** ** The activity logger *)

Module ActivityLoggerFacts.
Import Py ActivityLogger.

Section Environment.

Variable getenv : string -> option string.
Variable create_engine_error : string -> option error.
Variable create_all_error : engine_t -> option error.
Variable json_dumps : list (string * value) -> error + string.
Variable session_error : engine_t -> SystemLog -> list SystemLog -> option error.

Local Abbreviation __init__ :=
  (ActivityLogger.__init__ getenv create_engine_error create_all_error).
Local Abbreviation log_event :=
  (ActivityLogger.log_event json_dumps session_error).
Local Abbreviation log_file_upload :=
  (ActivityLogger.log_file_upload json_dumps session_error).
Local Abbreviation log_file_processing :=
  (ActivityLogger.log_file_processing json_dumps session_error).
Local Abbreviation get_logger :=
  (ActivityLogger.get_logger getenv create_engine_error create_all_error).
Local Abbreviation get_loggers :=
  (ActivityLogger.get_loggers getenv create_engine_error create_all_error).

(** Writing a line to the Python logger leaves the table alone. *)
Lemma emit_eq (l : log_line) (s : store) :
  emit l s = (Ok tt, Store (system_logs s) (log_lines s ++ [l]) (clock s)
                           (_activity_logger s) (next_object s)).
Proof. reflexivity. Qed.

(** What [log_event] does, case by case. *)
Lemma log_event_eq (self : ActivityLogger) (ev descr : string)
    (usr : option string) (det : option (list (string * value))) (s : store) :
  log_event self ev descr usr det s =
  let say l := Store (system_logs s) (log_lines s ++ [l]) (clock s)
                     (_activity_logger s) (next_object s) in
  match Session self with
  | None =>
      (Ok false,
       say (logger_error "Cannot log event: Session is not initialized"))
  | Some eng =>
      let dumped :=
        match details_given det with
        | None => inr None
        | Some d =>
            match json_dumps d with
            | inl err => inl err
            | inr text => inr (Some text)
            end
        end in
      match dumped with
      | inl err =>
          (Ok false,
           say (logger_error ("Error logging event: " +:+ error_str err)))
      | inr details_str =>
          let entry := Build_SystemLog ev usr descr details_str (clock s) in
          match session_error eng entry (system_logs s) with
          | Some err =>
              (Ok false,
               say (logger_error ("Error logging event: " +:+ error_str err)))
          | None =>
              (Ok true,
               Store (system_logs s ++ [entry])
                     (log_lines s
                      ++ [logger_info ("Logged event: " +:+ ev +:+ " - "
                                       +:+ descr)])
                     (clock s) (_activity_logger s) (next_object s))
          end
      end
  end.
Proof.
  unfold ActivityLogger.log_event, try_except.
  destruct (Session self) as [eng|]; [|reflexivity].
  unfold bind, ret, raise, session_commit, emit, modify.
  destruct (details_given det) as [d|].
  - destruct (json_dumps d) as [err|text]; [reflexivity|].
    cbn. destruct (session_error _ _ _); reflexivity.
  - cbn. destruct (session_error _ _ _); reflexivity.
Qed.

(** C6.  The logging calls never raise.  [log_event] returns [True]
    exactly when the logger has a session factory, [json.dumps] accepts
    the details (or there are none) and the session adds and commits the
    entry; the table then has this one entry more, with the event type,
    the description, the user, the details and the time of the call.  In
    every other case, a missing session factory included, it returns
    [False] and the table is as before.  [log_file_upload] and
    [log_file_processing] do the same with their own event type,
    description and details. *)
Theorem logging_never_raises (self : ActivityLogger) :
  let logs (run : M store bool) (ev descr : string) (usr : option string)
           (det : option (list (string * value))) : Prop :=
    ∀ s, ∃ b s',
      run s = (Ok b, s')
      ∧ (b = true
         ↔ ∃ eng details_str,
             Session self = Some eng
             ∧ details_str_of json_dumps det = inr details_str
             ∧ session_error eng
                 (Build_SystemLog ev usr descr details_str (clock s))
                 (system_logs s) = None)
      ∧ (b = true →
         ∃ details_str,
           details_str_of json_dumps det = inr details_str
           ∧ system_logs s'
             = system_logs s
               ++ [Build_SystemLog ev usr descr details_str (clock s)])
      ∧ (b = false → system_logs s' = system_logs s) in
  (∀ ev descr usr det, logs (log_event self ev descr usr det) ev descr usr det)
  ∧ (∀ filename file_type usr status det,
       logs (log_file_upload self filename file_type usr status det)
            "FILE_UPLOAD"
            ("File upload: " +:+ filename +:+ " (" +:+ file_type +:+ ") - "
             +:+ status)
            usr det)
  ∧ (∀ filename processed succeeded failed usr,
       logs (log_file_processing self filename processed succeeded failed usr)
            "FILE_PROCESSING" ("File processed: " +:+ filename) usr
            (Some [("records_processed", VInt processed);
                   ("records_success", VInt succeeded);
                   ("records_failed", VInt failed)])).
Proof.
  intros logs.
  assert (Hev : ∀ ev descr usr det,
            logs (log_event self ev descr usr det) ev descr usr det).
  { intros ev descr usr det s. rewrite log_event_eq. cbv zeta.
    unfold details_str_of.
    destruct (Session self) as [eng|].
    - destruct (details_given det) as [d|];
        [destruct (json_dumps d) as [err|text]|];
        try destruct (session_error _ _ _) eqn:Hse;
        eexists _, _; (split; [reflexivity|]); cbn;
        (split; [split; [try done|]|split; [try done|try done]]).
      all: try (intros (eng' & ds & [= <-] & Hds & Hok); congruence).
      all: try (intros _; eexists _, _; done).
      all: try (intros _; eexists; done).
    - eexists _, _. split; [reflexivity|]. cbn.
      split; [split; [done|]|done].
      by intros (eng & ds & ? & _). }
  split; [exact Hev|]. split.
  - intros filename file_type usr status det. apply Hev.
  - intros filename processed succeeded failed usr. apply Hev.
Qed.

(** [log_file_processing] hands the three counts to [json.dumps] as they
    come: it does not compare them. *)
Lemma log_file_processing_counts (self : ActivityLogger) (eng : engine_t)
    (filename : string) (processed succeeded failed : Z)
    (usr : option string) (s : store) (text : string) :
  Session self = Some eng →
  json_dumps [("records_processed", VInt processed);
              ("records_success", VInt succeeded);
              ("records_failed", VInt failed)] = inr text →
  session_error eng
    (Build_SystemLog "FILE_PROCESSING" usr ("File processed: " +:+ filename)
                     (Some text) (clock s)) (system_logs s) = None →
  system_logs
    (log_file_processing self filename processed succeeded failed usr s).2
  = system_logs s
    ++ [Build_SystemLog "FILE_PROCESSING" usr
          ("File processed: " +:+ filename) (Some text) (clock s)].
Proof.
  intros Hs Hj He. unfold ActivityLogger.log_file_processing.
  rewrite log_event_eq. cbv zeta. rewrite Hs. cbn [details_given].
  rewrite Hj, He. reflexivity.
Qed.

(** *** The accessor *)

(** The constructor never raises, and leaves the table and the module
    global as they are. *)
Lemma init_returns (engine_arg : option engine_t) (s : store) :
  ∃ logger s1,
    __init__ engine_arg s = (Ok logger, s1)
    ∧ object_id logger = next_object s
    ∧ _activity_logger s1 = _activity_logger s
    ∧ system_logs s1 = system_logs s
    ∧ (∀ eng, engine_arg = Some eng →
              engine logger = Some eng ∧ Session logger = Some eng).
Proof.
  unfold ActivityLogger.__init__, bind, modify, try_except.
  destruct engine_arg as [eng|].
  - unfold ret at 1. unfold create_logs_table.
    destruct (create_all_error eng); cbn;
      eexists _, _; (split; [reflexivity|]); cbn;
      do 3 (split; [done|]); by intros ? [= <-].
  - destruct (create_engine_error _) as [err|].
    + cbn. eexists _, _. split; [reflexivity|]. cbn. done.
    + unfold ret at 1. unfold create_logs_table.
      destruct (create_all_error _); cbn;
        eexists _, _; (split; [reflexivity|]); cbn; done.
Qed.

(** Once the module global is set, every call returns it. *)
Lemma get_loggers_again (engines : list (option engine_t)) (s : store)
    (logger : ActivityLogger) :
  _activity_logger s = Some logger →
  get_loggers engines s = (replicate (length engines) (Ok logger), s).
Proof.
  intros H. induction engines as [|e rest IH]; [reflexivity|].
  cbn [ActivityLogger.get_loggers length replicate].
  unfold ActivityLogger.get_logger at 1. rewrite H, IH. reflexivity.
Qed.

(** C10.  The first call of [get_logger] constructs an [ActivityLogger]
    from the engine it is given and keeps it in the module global; every
    later call returns that same object, whatever engine it is given, and
    changes nothing. *)
Theorem get_logger_memoizes (first : option engine_t)
    (rest : list (option engine_t)) (s : store) :
  _activity_logger s = None →
  ∃ logger s1,
    __init__ first s = (Ok logger, s1)
    ∧ (get_loggers (first :: rest) s).1
      = replicate (S (length rest)) (Ok logger)
    ∧ (get_loggers (first :: rest) s).2 = (get_logger first s).2
    ∧ _activity_logger (get_loggers (first :: rest) s).2 = Some logger
    ∧ (∀ eng, first = Some eng → engine logger = Some eng).
Proof.
  intros H.
  destruct (init_returns first s) as (logger & s1 & Hinit & _ & _ & _ & Heng).
  exists logger, s1. split; [exact Hinit|].
  cbn [ActivityLogger.get_loggers].
  assert (Hfirst : get_logger first s
                   = (Ok logger,
                      Store (system_logs s1) (log_lines s1) (clock s1)
                            (Some logger) (ActivityLogger.next_object s1))).
  { unfold ActivityLogger.get_logger. rewrite H. unfold bind at 1.
    rewrite Hinit. reflexivity. }
  rewrite Hfirst.
  rewrite (get_loggers_again rest _ logger) by reflexivity.
  cbn. split; [done|]. split; [done|]. split; [done|].
  intros eng He. by destruct (Heng eng He).
Qed.

End Environment.

(** A file upload that is recorded, an event whose details cannot be
    serialised, and an event sent to a logger without a session
    factory. *)
Lemma logging_never_raises_witness :
  (∃ s',
     ActivityLogger.log_file_upload demo_dumps (λ _ _ _, None)
       (Build_ActivityLogger 0 (Some "db") (Some "db"))
       "t.csv" "employee" (Some "ann") "SUCCESS" None initial_store
     = (Ok true, s')
     ∧ system_logs s'
       = [Build_SystemLog "FILE_UPLOAD" (Some "ann")
            "File upload: t.csv (employee) - SUCCESS" None 0])
  ∧ (∃ s',
       ActivityLogger.log_event demo_dumps (λ _ _ _, None)
         (Build_ActivityLogger 0 (Some "db") (Some "db"))
         "QUERY" "ran" None (Some [("n", VObject 3)]) initial_store
       = (Ok false, s')
       ∧ system_logs s' = [])
  ∧ (∃ s',
       ActivityLogger.log_event demo_dumps (λ _ _ _, None)
         (Build_ActivityLogger 0 None None) "QUERY" "ran" None None
         initial_store
       = (Ok false, s')).
Proof.
  split; [|split].
  - destruct (proj1 (proj2 (logging_never_raises demo_dumps (λ _ _ _, None)
                              (Build_ActivityLogger 0 (Some "db") (Some "db"))))
                "t.csv" "employee" (Some "ann") "SUCCESS" None initial_store)
      as (b & s' & Hrun & Hiff & Hrow & _).
    assert (b = true) as -> by (apply Hiff; by exists "db", None).
    destruct (Hrow eq_refl) as (ds & Hds & Hlogs).
    injection Hds as <-. exists s'. split; [exact Hrun|exact Hlogs].
  - destruct (proj1 (logging_never_raises demo_dumps (λ _ _ _, None)
                       (Build_ActivityLogger 0 (Some "db") (Some "db")))
                "QUERY" "ran" None (Some [("n", VObject 3)]) initial_store)
      as (b & s' & Hrun & Hiff & _ & Hkept).
    destruct b.
    + destruct (proj1 Hiff eq_refl) as (eng & ds & _ & Hds & _).
      discriminate Hds.
    + exists s'. split; [exact Hrun|exact (Hkept eq_refl)].
  - destruct (proj1 (logging_never_raises demo_dumps (λ _ _ _, None)
                       (Build_ActivityLogger 0 None None))
                "QUERY" "ran" None None initial_store)
      as (b & s' & Hrun & Hiff & _).
    destruct b.
    + destruct (proj1 Hiff eq_refl) as (eng & ds & Hsession & _).
      discriminate Hsession.
    + by exists s'.
Defined.

(** A logger whose session factory is missing, and one whose session
    works. *)
Example log_event_without_session :
  (ActivityLogger.log_event demo_dumps (λ _ _ _, None)
     (Build_ActivityLogger 0 None None) "QUERY" "ran" None None
     initial_store).1 = Ok false.
Proof. reflexivity. Qed.

Example log_file_processing_logged :
  ActivityLogger.log_file_processing demo_dumps (λ _ _ _, None)
    (Build_ActivityLogger 0 (Some "db") (Some "db")) "t.csv" 5 1 1 None
    initial_store
  = (Ok true,
     Store [Build_SystemLog "FILE_PROCESSING" None "File processed: t.csv"
              (Some "records_processed, records_success, records_failed") 0]
           [logger_info "Logged event: FILE_PROCESSING - File processed: t.csv"]
           0 None 0).
Proof. reflexivity. Qed.

(** Three calls with three different engine arguments. *)
Lemma get_logger_memoizes_witness :
  ∃ logger,
    (ActivityLogger.get_loggers no_env no_error no_error
       [Some "db1"; Some "db2"; None] initial_store).1
    = [Ok logger; Ok logger; Ok logger]
    ∧ engine logger = Some "db1".
Proof.
  destruct (get_logger_memoizes no_env no_error no_error (Some "db1")
              [Some "db2"; None] initial_store eq_refl)
    as (logger & s1 & _ & Hall & _ & _ & Heng).
  exists logger. split; [exact Hall|]. by apply Heng.
Defined.

End ActivityLoggerFacts.

(** ** Cutting strings *)

Module PySplitFacts.
Import PyStr PyStrFacts.

Lemma append_assoc (a b c : string) : (a +:+ b) +:+ c = a +:+ b +:+ c.
Proof. induction a as [|x a IH]; [reflexivity|]. by rewrite !append_cons, IH. Qed.

Lemma append_nil_r (a : string) : a +:+ "" = a.
Proof. induction a as [|x a IH]; [reflexivity|]. by rewrite append_cons, IH. Qed.

Lemma length_append (a b : string) :
  String.length (a +:+ b) = String.length a + String.length b.
Proof.
  induction a as [|x a IH]; [reflexivity|]. rewrite append_cons. cbn. by rewrite IH.
Qed.

(** A separator is found at the head of a text by looking at no more
    characters than it has. *)
Lemma prefix_short (sep z w : string) :
  String.length sep ≤ String.length z →
  String.prefix sep (z +:+ w) = String.prefix sep z.
Proof.
  revert z. induction sep as [|c sep IH]; intros z Hlen.
  - by destruct z, w.
  - destruct z as [|x z]; [cbn in Hlen; lia|].
    rewrite append_cons. cbn [String.prefix].
    destruct (ascii_dec c x); [|reflexivity].
    apply IH. cbn in Hlen. lia.
Qed.

Lemma prefix_too_long (a b : string) :
  String.length b < String.length a → String.prefix a b = false.
Proof.
  revert a. induction b as [|y b IH]; intros a Hlen.
  - destruct a; [cbn in Hlen; lia | reflexivity].
  - destruct a as [|x a]; [cbn in Hlen; lia|].
    cbn [String.prefix]. destruct (ascii_dec x y); [|reflexivity].
    apply IH. cbn in Hlen. lia.
Qed.

Lemma contains_too_long (a b : string) :
  String.length b < String.length a → contains a b = false.
Proof.
  induction b as [|y b IH]; intros Hlen.
  - cbn [contains]. by rewrite prefix_too_long.
  - cbn [contains]. rewrite prefix_too_long by done.
    rewrite IH; [reflexivity|]. cbn in Hlen. lia.
Qed.

Lemma prefix_self (sep rest : string) : String.prefix sep (sep +:+ rest) = true.
Proof. apply prefix_append. by exists rest. Qed.

(** What [split_go] does at a character where nothing is to be skipped. *)
Lemma split_go_step (sep cur : string) (c : ascii) (s : string) :
  split_go sep 0 cur (String c s) =
  if String.prefix sep (String c s)
  then cur :: split_go sep (String.length sep - 1) "" s
  else split_go sep 0 (cur +:+ String c "") s.
Proof. reflexivity. Qed.

(** [split] never returns the empty list. *)
Lemma split_go_not_nil (sep : string) (skip : nat) (cur s : string) :
  split_go sep skip cur s ≠ [].
Proof.
  revert skip cur. induction s as [|c s IH]; intros skip cur; [done|].
  destruct skip as [|k]; [|apply IH].
  rewrite split_go_step. destruct (String.prefix _ _); [done|apply IH].
Qed.

Section Separator.

(** The separator, written as its last character after the rest. *)
Variable init : string.
Variable c : ascii.

Local Abbreviation sep := (init +:+ String c "").

Lemma sep_length : String.length sep = S (String.length init).
Proof. rewrite length_append. cbn. lia. Qed.

(** The first part ends where the separator first occurs: when it does not
    occur earlier than after [a], the first part of [a sep rest] is [a]. *)
Lemma split_go_head (a cur rest : string) :
  contains sep (a +:+ init) = false →
  head (split_go sep 0 cur (a +:+ sep +:+ rest)) = Some (cur +:+ a).
Proof.
  revert cur. induction a as [|x a IH]; intros cur Hno.
  - rewrite append_nil, append_nil_r.
    destruct (sep +:+ rest) as [|y t] eqn:Hs.
    { destruct init; discriminate. }
    rewrite split_go_step, <- Hs, prefix_self. reflexivity.
  - rewrite append_cons in Hno. cbn [contains] in Hno.
    apply orb_false_iff in Hno as [Hhere Hlater].
    rewrite append_cons, split_go_step.
    replace (String x (a +:+ sep +:+ rest))
      with (String x (a +:+ init) +:+ String c rest)
      by (by rewrite append_cons, !append_assoc).
    rewrite prefix_short, Hhere.
    + rewrite IH by exact Hlater. by rewrite append_assoc.
    + rewrite sep_length. cbn. rewrite length_append. lia.
Qed.

(** When the separator occurs earlier, the first part is shorter. *)
Lemma split_go_head_early (a cur rest : string) :
  contains sep (a +:+ init) = true →
  ∃ b, head (split_go sep 0 cur (a +:+ sep +:+ rest)) = Some (cur +:+ b)
       ∧ String.length b < String.length a.
Proof.
  revert cur. induction a as [|x a IH]; intros cur Hyes.
  - rewrite append_nil, contains_too_long in Hyes; [discriminate|].
    rewrite sep_length. lia.
  - rewrite append_cons in Hyes. cbn [contains] in Hyes.
    rewrite append_cons, split_go_step.
    replace (String x (a +:+ sep +:+ rest))
      with (String x (a +:+ init) +:+ String c rest)
      by (by rewrite append_cons, !append_assoc).
    rewrite prefix_short
      by (rewrite sep_length; cbn; rewrite length_append; lia).
    destruct (String.prefix sep (String x (a +:+ init))) eqn:Hhere.
    + exists "". rewrite append_nil_r. split; [reflexivity|]. cbn. lia.
    + cbn [orb] in Hyes.
      destruct (IH (cur +:+ String x "") Hyes) as (b & Hb & Hlen).
      exists (String x b). rewrite Hb, append_assoc. split; [reflexivity|].
      cbn. lia.
Qed.

(** The first part of [a sep rest] is [a] exactly when the separator does
    not begin inside [a]. *)
Lemma split_head_iff (a rest : string) :
  head (split sep (a +:+ sep +:+ rest)) = Some a
  ↔ contains sep (a +:+ init) = false.
Proof.
  unfold split. split.
  - intros Hhead. destruct (contains sep (a +:+ init)) eqn:Hc; [|reflexivity].
    destruct (split_go_head_early a "" rest Hc) as (b & Hb & Hlen).
    rewrite Hb, append_nil in Hhead. injection Hhead as ->. lia.
  - intros Hno. by rewrite split_go_head, append_nil.
Qed.

End Separator.

Section OneCharacter.

Variable c : ascii.

Local Abbreviation sep1 := (String c "").

Lemma prefix_one (x : ascii) (s : string) :
  String.prefix sep1 (String x s) = bool_decide (c = x).
Proof.
  cbn [String.prefix]. destruct (ascii_dec c x) as [->|Hne].
  - rewrite bool_decide_eq_true_2 by done. by destruct s.
  - by rewrite bool_decide_eq_false_2.
Qed.

Lemma contains_one_cons (x : ascii) (s : string) :
  contains sep1 (String x s) = bool_decide (c = x) || contains sep1 s.
Proof. cbn [contains]. by rewrite prefix_one. Qed.

Lemma contains_one_append (a b : string) :
  contains sep1 (a +:+ b) = contains sep1 a || contains sep1 b.
Proof.
  induction a as [|x a IH].
  - rewrite append_nil. cbn [contains]. by destruct (contains sep1 b).
  - rewrite append_cons, !contains_one_cons, IH. by rewrite orb_assoc.
Qed.

(** Without the character the text is one part. *)
Lemma split_one_none (cur s : string) :
  contains sep1 s = false → split_go sep1 0 cur s = [cur +:+ s].
Proof.
  revert cur. induction s as [|x s IH]; intros cur Hno.
  - by rewrite append_nil_r.
  - rewrite contains_one_cons in Hno. apply orb_false_iff in Hno as [Hx Hs].
    rewrite split_go_step, prefix_one, Hx, IH by exact Hs.
    by rewrite append_assoc.
Qed.

(** The last part is what follows the last occurrence. *)
Lemma split_one_last (a cur b : string) :
  last (split_go sep1 0 cur (a +:+ String c b))
  = last (split_go sep1 0 "" b).
Proof.
  revert cur. induction a as [|x a IH]; intros cur.
  - rewrite append_nil, split_go_step, prefix_one.
    rewrite bool_decide_eq_true_2 by done. cbn [String.length Nat.sub].
    rewrite last_cons.
    destruct (last (split_go sep1 0 "" b)) eqn:Hl; [done|].
    apply last_None in Hl. by apply split_go_not_nil in Hl.
  - rewrite append_cons, split_go_step, prefix_one.
    destruct (bool_decide (c = x)).
    + cbn [String.length Nat.sub]. rewrite last_cons, IH.
      destruct (last (split_go sep1 0 "" b)) eqn:Hl; [done|].
      apply last_None in Hl. by apply split_go_not_nil in Hl.
    + apply IH.
Qed.

(** A text with the character is cut at its last occurrence. *)
Lemma last_occurrence (s : string) :
  contains sep1 s = true →
  ∃ a b, s = a +:+ String c b ∧ contains sep1 b = false.
Proof.
  induction s as [|x s IH]; [discriminate|].
  rewrite contains_one_cons. intros Hyes.
  destruct (contains sep1 s) eqn:Hs.
  - destruct (IH eq_refl) as (a & b & -> & Hb).
    exists (String x a), b. by rewrite append_cons.
  - rewrite orb_false_r in Hyes. apply bool_decide_eq_true in Hyes as <-.
    exists "", s. done.
Qed.

Lemma rstrip_length (s : string) :
  String.length (rstrip c s) ≤ String.length s.
Proof.
  induction s as [|x s IH]; [done|]. cbn [rstrip].
  destruct (rstrip c s) as [|y r].
  - destruct (ascii_dec x c); cbn; lia.
  - cbn in *. lia.
Qed.

(** Stripping takes a final [c] with it. *)
Lemma rstrip_append_one (s : string) : rstrip c (s +:+ sep1) = rstrip c s.
Proof.
  induction s as [|x s IH].
  - rewrite append_nil. cbn [rstrip]. by destruct (ascii_dec c c).
  - rewrite append_cons. cbn [rstrip]. by rewrite IH.
Qed.

Lemma rstrip_nil_iff (s : string) :
  rstrip c s = "" → s = "" ∨ ends_with c s.
Proof.
  induction s as [|x s IH]; [by left|]. cbn [rstrip].
  destruct (rstrip c s) as [|y r] eqn:Hr; [|discriminate].
  destruct (ascii_dec x c) as [->|]; [|discriminate].
  intros _. right. destruct (IH eq_refl) as [->|[a ->]].
  - by exists "".
  - exists (String c a). by rewrite append_cons.
Qed.

(** Stripping changes a text exactly when it ends with [c]. *)
Lemma rstrip_id_iff (s : string) : rstrip c s = s ↔ ¬ ends_with c s.
Proof.
  induction s as [|x s IH].
  - split; [|done]. intros _ [[|y a] Ha]; discriminate.
  - cbn [rstrip]. destruct (rstrip c s) as [|y r] eqn:Hr.
    + destruct (rstrip_nil_iff s Hr) as [->|[a ->]].
      * destruct (ascii_dec x c) as [->|Hne].
        -- split; [discriminate|]. intros H. exfalso. apply H. by exists "".
        -- split; [|done]. intros _ [[|y a] Ha]; [by injection Ha|].
           rewrite append_cons in Ha. injection Ha as _ Ha.
           by destruct a.
      * split.
        -- destruct (ascii_dec x c); [discriminate|].
           intros [= Ha]. by destruct a.
        -- intros H. exfalso. apply H. exists (String x a).
           by rewrite append_cons.
    + split.
      * intros [= Heq] [a Ha]. destruct a as [|z a].
        -- rewrite append_nil in Ha. injection Ha as _ ->. discriminate.
        -- rewrite append_cons in Ha. injection Ha as _ ->.
           apply IH; [exact Heq|]. by exists a.
      * intros H. f_equal. apply IH. intros [a ->]. apply H.
        exists (String x a). by rewrite append_cons.
Qed.

End OneCharacter.

End PySplitFacts.

(** ** The employee selector of the task summariser *)

Module TasksSummariserFacts.
Import PyStr PyStrFacts PySplitFacts TasksSummariser.

(** The code chosen in the selector is the code the entry was made from
    exactly when [" - "] does not begin inside the code, that is, when the
    code neither holds [" - "] nor ends in [" -"]; the name may hold
    anything. *)
Theorem selected_employee_round_trip (employee_code employee_name : string) :
  selected_employee (employee_option employee_code employee_name)
  = Some employee_code
  ↔ ¬ substring_of " - " (employee_code +:+ " -").
Proof.
  unfold selected_employee, employee_option.
  assert (truthy (employee_code +:+ " - " +:+ employee_name) = true) as ->
    by (by destruct employee_code).
  rewrite <- contains_not_substring.
  exact (split_head_iff " -" " " employee_code employee_name).
Qed.

Lemma selected_employee_round_trip_witness :
  selected_employee (employee_option "E01" "Ann - Lee") = Some "E01".
Proof.
  apply (proj2 (selected_employee_round_trip "E01" "Ann - Lee")).
  apply contains_not_substring. vm_compute. reflexivity.
Defined.

(** A code that ends in [" -"] comes back cut short. *)
Example selected_employee_cut_short :
  selected_employee (employee_option "A -" "Bob") = Some "A".
Proof. vm_compute. reflexivity. Qed.

End TasksSummariserFacts.

(** ** The project report *)

Module ReportFacts.
Import PyStr PyStrFacts PySplitFacts Report.

(** The project name read back from the selector is the name the entry was
    made from exactly when [" ("] does not occur in the name. *)
Theorem project_name_round_trip (project_name project_id : string) :
  project_name_of (project_option project_name project_id) = project_name
  ↔ ¬ substring_of " (" (project_name +:+ " ").
Proof.
  unfold project_name_of, project_option.
  rewrite <- contains_not_substring.
  rewrite <- (split_head_iff " " "(" project_name (project_id +:+ ")")).
  change (" " +:+ String "(" "") with " (".
  destruct (head (split " (" (project_name +:+ " (" +:+ project_id +:+ ")")))
    as [b|] eqn:Hh.
  - cbn. split; congruence.
  - apply head_None in Hh. by apply split_go_not_nil in Hh.
Qed.

Lemma project_name_round_trip_witness :
  project_name_of (project_option "Apollo" "P(1)") = "Apollo".
Proof.
  apply (proj2 (project_name_round_trip "Apollo" "P(1)")).
  apply contains_not_substring. vm_compute. reflexivity.
Defined.

(** The last part of a text that ends in an opening parenthesis, a run
    without one, and a closing parenthesis. *)
Lemma last_part (before inside : string) :
  contains "(" inside = false →
  last (split "(" (before +:+ String "(" (inside +:+ ")")))
  = Some (inside +:+ ")").
Proof.
  intros Hno. unfold split.
  rewrite split_one_last, split_one_none; [reflexivity|].
  rewrite contains_one_append, Hno. reflexivity.
Qed.

(** The project identifier read back from the selector is the identifier
    the entry was made from exactly when the identifier holds no opening
    parenthesis and does not end with a closing one; the name may hold
    anything. *)
Theorem project_id_round_trip (project_name project_id : string) :
  project_id_of (project_option project_name project_id) = project_id
  ↔ ¬ substring_of "(" project_id ∧ ¬ ends_with ")" project_id.
Proof.
  rewrite <- contains_not_substring. unfold project_id_of, project_option.
  destruct (contains "(" project_id) eqn:Hc.
  - split; [|by intros [? _]]. intros Heq. exfalso.
    destruct (last_occurrence "(" project_id Hc) as (a & b & -> & Hb).
    replace (project_name +:+ " (" +:+ (a +:+ String "(" b) +:+ ")")
      with ((project_name +:+ " (" +:+ a) +:+ String "(" (b +:+ ")")) in Heq
      by (by rewrite !append_assoc).
    rewrite (last_part _ b Hb) in Heq. cbn [default from_option id] in Heq.
    rewrite rstrip_append_one in Heq.
    pose proof (rstrip_length ")" b) as Hlen. rewrite Heq in Hlen.
    rewrite length_append in Hlen. cbn in Hlen. lia.
  - replace (project_name +:+ " (" +:+ project_id +:+ ")")
      with ((project_name +:+ " ") +:+ String "(" (project_id +:+ ")"))
      by (by rewrite append_assoc).
    rewrite (last_part _ _ Hc). cbn [default from_option id].
    rewrite rstrip_append_one, rstrip_id_iff. naive_solver.
Qed.

Lemma project_id_round_trip_witness :
  project_id_of (project_option "Apollo (EU)" "P-1") = "P-1".
Proof.
  apply (proj2 (project_id_round_trip "Apollo (EU)" "P-1")). split.
  - apply contains_not_substring. vm_compute. reflexivity.
  - intros [a Ha].
    do 3 (destruct a as [|? a]; [discriminate|]; injection Ha as _ Ha).
    by destruct a.
Defined.

(** Identifiers with parentheses come back changed. *)
Example project_id_changed :
  project_id_of (project_option "Apollo" "P(1)") = "1"
  ∧ project_id_of (project_option "Apollo" "P1)") = "P1".
Proof. split; vm_compute; reflexivity. Qed.

(** *** The team lists *)

Lemma elem_of_unique (l : list string) (x : string) : x ∈ unique l ↔ x ∈ l.
Proof.
  induction l as [|y l IH]; [done|]. cbn [unique].
  rewrite !elem_of_cons, list_elem_of_filter, IH.
  destruct (decide (x = y)); naive_solver.
Qed.

Lemma NoDup_unique (l : list string) : NoDup (unique l).
Proof.
  induction l as [|y l IH]; [constructor|]. cbn [unique].
  apply NoDup_cons. split.
  - rewrite list_elem_of_filter. naive_solver.
  - by apply NoDup_filter.
Qed.

(** Every employee of the allocation history is listed once, either with
    the current or with the past members: the two lists have no
    repetition, share no code, and together hold exactly the codes of the
    history; the current ones are those with an active allocation that has
    no end. *)
Theorem team_lists_partition (project_data : list allocation) :
  NoDup (current_employees project_data)
  ∧ NoDup (past_employees project_data)
  ∧ (∀ code, code ∈ current_employees project_data →
             code ∉ past_employees project_data)
  ∧ (∀ code, code ∈ (employee_code <$> project_data)
             ↔ code ∈ current_employees project_data
               ∨ code ∈ past_employees project_data)
  ∧ (∀ code, code ∈ current_employees project_data
             ↔ ∃ r, r ∈ project_data ∧ employee_code r = code
                    ∧ allocation_status r = "Active"
                    ∧ effective_to r = None).
Proof.
  assert (Hcur : ∀ code, code ∈ current_employees project_data
             ↔ ∃ r, r ∈ project_data ∧ employee_code r = code
                    ∧ allocation_status r = "Active"
                    ∧ effective_to r = None).
  { intros code. unfold current_employees.
    rewrite elem_of_unique, list_elem_of_fmap.
    setoid_rewrite list_elem_of_filter. naive_solver. }
  assert (Hpast : ∀ code, code ∈ past_employees project_data
             ↔ (code ∉ current_employees project_data)
               ∧ code ∈ (employee_code <$> project_data)).
  { intros code. unfold past_employees.
    rewrite elem_of_unique, !list_elem_of_fmap.
    setoid_rewrite list_elem_of_filter. naive_solver. }
  split; [apply NoDup_unique|]. split; [apply NoDup_unique|].
  split; [|split; [|exact Hcur]].
  - intros code Hc Hp. apply Hpast in Hp. naive_solver.
  - intros code. rewrite Hpast. split.
    + intros Hin.
      destruct (decide (code ∈ current_employees project_data)); auto.
    + intros [Hc|[_ Hin]]; [|exact Hin].
      apply Hcur in Hc as (r & Hr & <- & _). apply list_elem_of_fmap. eauto.
Qed.

Lemma team_lists_partition_witness :
  current_employees
    [Allocation "E1" "Active" 10 (Some 20); Allocation "E2" "Active" 5 None;
     Allocation "E1" "Inactive" 1 None; Allocation "E2" "Active" 1 (Some 4)]
  = ["E2"]
  ∧ "E2" ∉ past_employees
      [Allocation "E1" "Active" 10 (Some 20); Allocation "E2" "Active" 5 None;
       Allocation "E1" "Inactive" 1 None; Allocation "E2" "Active" 1 (Some 4)].
Proof.
  split; [vm_compute; reflexivity|].
  apply (proj1 (proj2 (proj2 (team_lists_partition _)))).
  apply (bool_decide_unpack _). vm_compute. reflexivity.
Defined.

(** The count of active members in the document is at least the number of
    members shown as current on the page, and at most the number of all
    members. *)
Theorem member_counts_ordered (project_data : list allocation) :
  length (current_employees project_data) ≤ active_employees project_data
  ∧ active_employees project_data ≤ total_employees project_data.
Proof.
  unfold active_employees, total_employees, current_employees. split.
  - apply submseteq_length, NoDup_submseteq; [apply NoDup_unique|].
    intros code. rewrite !elem_of_unique, !list_elem_of_fmap.
    setoid_rewrite list_elem_of_filter. naive_solver.
  - apply submseteq_length, NoDup_submseteq; [apply NoDup_unique|].
    intros code. rewrite !elem_of_unique, !list_elem_of_fmap.
    setoid_rewrite list_elem_of_filter. naive_solver.
Qed.

End ReportFacts.

(** ** More on the upload page *)

Module FileUploadMoreFacts.
Import Py PyStr FileUpload FileUploadFacts.

Section Page.

Variable str_lower : string -> string.
Variable required_files : list (string * string).
Variable upload_folder : string -> string.
Variable open_wb_error : string -> option error.

Local Abbreviation rtype := (record_type str_lower required_files).
Local Abbreviation path := (save_path upload_folder).
Local Abbreviation step := (upload_step str_lower required_files upload_folder open_wb_error).
Local Abbreviation loop := (upload_loop str_lower required_files upload_folder open_wb_error).
Local Abbreviation render := (render_file_upload str_lower required_files upload_folder open_wb_error).
Local Abbreviation saved := (FileUpload.saved str_lower required_files upload_folder).

(** When a copy cannot be written the page stops there: the exception
    leaves the loop and the page, the files after the failing one are
    neither saved nor listed, nothing is shown, the pipeline is not called,
    and the copies written before stay on disk. *)
Theorem failed_write_stops_the_page (b1 b2 : list uploaded_file)
    (f : uploaded_file) (k : string) (e : error) (l1 : locals)
    (w w1 : world) (clicked : bool) :
  loop b1 (Locals ∅ []) w = (Ok l1, w1) →
  rtype f = Some k →
  open_wb_error (path k (name f)) = Some e →
  loop (b1 ++ f :: b2) (Locals ∅ []) w = (Raise (exn_of e), w1)
  ∧ render (b1 ++ f :: b2) clicked w = (Raise (exn_of e), w1).
Proof.
  intros Hb1 Hf He.
  assert (Hloop : loop (b1 ++ f :: b2) (Locals ∅ []) w
                  = (Raise (exn_of e), w1)).
  { rewrite upload_loop_app, Hb1, upload_loop_cons, upload_step_eq, Hf, He.
    reflexivity. }
  split; [exact Hloop|].
  unfold render_file_upload.
  destruct (b1 ++ f :: b2) as [|g rest] eqn:Hb.
  { by destruct b1. }
  unfold bind. by rewrite Hloop.
Qed.

(** The files on disk after the loop. *)
Lemma upload_loop_saved_files (batch : list uploaded_file) (l l' : locals)
    (w w' : world) :
  loop batch l w = (Ok l', w') →
  w' = World (saved (fs w) batch) (csv_upload_log w) (screen w).
Proof.
  revert l w. induction batch as [|f rest IH]; intros l w Hrun.
  - injection Hrun as _ <-. by destruct w.
  - apply upload_loop_ok_cons in Hrun as (l1 & w1 & Hstep & Hrest).
    rewrite (IH _ _ Hrest). rewrite upload_step_eq in Hstep.
    unfold FileUpload.saved. cbn [foldl].
    destruct (rtype f) as [k|].
    + destruct (open_wb_error _); [discriminate|].
      by injection Hstep as _ <-.
    + by injection Hstep as _ <-.
Qed.

(** The mapping and the list of names do not depend on the world. *)
Lemma upload_loop_locals (batch : list uploaded_file) (l l' : locals)
    (w w' v : world) :
  loop batch l w = (Ok l', w') → ∃ v', loop batch l v = (Ok l', v').
Proof.
  revert l w v. induction batch as [|f rest IH]; intros l w v Hrun.
  - injection Hrun as <- _. by exists v.
  - apply upload_loop_ok_cons in Hrun as (l1 & w1 & Hstep & Hrest).
    rewrite upload_loop_cons, upload_step_eq. rewrite upload_step_eq in Hstep.
    destruct (rtype f) as [k|].
    + destruct (open_wb_error _); [discriminate|].
      injection Hstep as <- _. eapply IH, Hrest.
    + injection Hstep as <- _. eapply IH, Hrest.
Qed.

Lemma saved_snoc (m : gmap string (list Byte.byte))
    (batch : list uploaded_file) (f : uploaded_file) :
  saved m (batch ++ [f]) =
  match rtype f with
  | Some k => <[path k (name f) := getbuffer f]> (saved m batch)
  | None => saved m batch
  end.
Proof. unfold FileUpload.saved. by rewrite foldl_app. Qed.

(** What is found at a path after the writes depends on the files only
    through what they hold at this path. *)
Lemma saved_lookup_ext (m m' : gmap string (list Byte.byte))
    (batch : list uploaded_file) (p : string) :
  m !! p = m' !! p → saved m batch !! p = saved m' batch !! p.
Proof.
  intros Hp. induction batch as [|f batch IH] using rev_ind; [exact Hp|].
  rewrite !saved_snoc. destruct (rtype f) as [k|]; [|exact IH].
  destruct (decide (path k (name f) = p)) as [->|Hne].
  - by rewrite !lookup_insert_eq.
  - by rewrite !lookup_insert_ne.
Qed.

Lemma saved_twice (m : gmap string (list Byte.byte))
    (batch : list uploaded_file) :
  saved (saved m batch) batch = saved m batch.
Proof.
  apply map_eq. intros p.
  induction batch as [|f batch IH] using rev_ind; [reflexivity|].
  rewrite !saved_snoc. destruct (rtype f) as [k|].
  - destruct (decide (path k (name f) = p)) as [->|Hne].
    + by rewrite !lookup_insert_eq.
    + rewrite !lookup_insert_ne by done.
      rewrite <- IH. apply saved_lookup_ext.
      by rewrite lookup_insert_ne.
  - exact IH.
Qed.

(** Streamlit runs the page again on every interaction.  Running the loop
    a second time on the same batch, in the world the first run has left,
    returns the same mapping and the same list of names and leaves that
    world as it is. *)
Theorem second_run_changes_nothing (batch : list uploaded_file) (l : locals)
    (w w1 : world) :
  loop batch (Locals ∅ []) w = (Ok l, w1) →
  loop batch (Locals ∅ []) w1 = (Ok l, w1).
Proof.
  intros Hrun.
  destruct (upload_loop_locals _ _ _ _ _ w1 Hrun) as [v' Hagain].
  rewrite Hagain. f_equal.
  rewrite (upload_loop_saved_files _ _ _ _ _ Hagain).
  rewrite (upload_loop_saved_files _ _ _ _ _ Hrun). cbn [fs csv_upload_log screen].
  by rewrite saved_twice.
Qed.

(** Every uploaded file is either stored under a record type or listed as
    unrecognized.  The number in the status message is the size of the
    mapping, which is the number of different record types met: it is at
    most the number of recognized files. *)
Theorem every_file_accounted_for (batch : list uploaded_file) (l : locals)
    (w w' : world) :
  loop batch (Locals ∅ []) w = (Ok l, w') →
  length (record_types str_lower required_files batch)
  + length (unrecognized_files l) = length batch
  ∧ size (files_dict l)
    = size (list_to_set (record_types str_lower required_files batch)
            : gset string)
  ∧ size (files_dict l)
    ≤ length (record_types str_lower required_files batch).
Proof.
  intros Hrun.
  assert (Hsize : size (files_dict l)
    = size (list_to_set (record_types str_lower required_files batch)
            : gset string)).
  { rewrite <- size_dom, (upload_loop_dom _ _ _ _ _ _ _ _ _ Hrun).
    cbn [files_dict]. by rewrite dom_empty_L, union_empty_l_L. }
  split; [|split; [exact Hsize|]].
  - rewrite (upload_loop_unrecognized _ _ _ _ _ _ _ _ _ Hrun).
    cbn [unrecognized_files app]. unfold unrecognized_names, record_types.
    rewrite length_fmap. clear.
    induction batch as [|f rest IH]; [reflexivity|].
    cbn [omap list_omap]. destruct (rtype f) eqn:Hf.
    + rewrite filter_cons_False by congruence. cbn. lia.
    + rewrite filter_cons_True by done. cbn. lia.
  - rewrite Hsize. generalize (record_types str_lower required_files batch).
    intros ks. induction ks as [|x ks IH]; [done|].
    cbn [list_to_set length]. rewrite size_union_alt, size_singleton.
    assert (size (list_to_set ks ∖ {[x]} : gset string)
            ≤ size (list_to_set ks : gset string))
      by (apply subseteq_size, subseteq_difference_l; reflexivity).
    lia.
Qed.


(** An entry whose fragment is empty catches every file name that no
    earlier entry catches, since the empty text occurs in every text. *)
Theorem empty_fragment_catches_all (pre post : list (string * string))
    (type_key file_name : string) :
  str_lower "" = "" →
  Forall (λ e, ¬ matches str_lower e.2 file_name) pre →
  file_type_of str_lower (pre ++ (type_key, "") :: post) file_name
  = Some type_key.
Proof.
  intros Hlower Hpre. rewrite file_type_of_skip by exact Hpre.
  cbn [file_type_of]. unfold fragment_in. rewrite Hlower.
  by destruct (str_lower file_name).
Qed.


End Page.


(** The record type can change with the longer name. *)
Example longer_name_other_type :
  file_type_of lower demo_files "project.csv" = Some "project"
  ∧ file_type_of lower demo_files ("employee_" +:+ "project.csv" +:+ "")
    = Some "employee".
Proof. split; vm_compute; reflexivity. Qed.

Lemma empty_fragment_catches_all_witness :
  file_type_of lower [("employee", "Employee"); ("other", "")] "notes.csv"
  = Some "other".
Proof.
  apply (empty_fragment_catches_all lower [("employee", "Employee")] []
           "other" "notes.csv").
  - reflexivity.
  - repeat constructor. apply PyStrFacts.contains_not_substring.
    vm_compute. reflexivity.
Defined.

(** The third file of the batch cannot be saved. *)
Lemma failed_write_stops_the_page_witness :
  ∃ w1,
    render_file_upload lower demo_files uploads
      (locked "uploads/project_project.csv") clashing_batch true empty_world
    = (Raise (exn_of (Error "PermissionError" "Permission denied")), w1)
    ∧ screen w1 = []
    ∧ fs w1 !! "uploads/employee_employee_feb.csv"
      = Some (getbuffer (csv "employee_feb.csv"))
    ∧ fs w1 !! "uploads/project_project.csv" = None.
Proof.
  destruct (upload_loop_returns_if lower demo_files uploads
              (locked "uploads/project_project.csv")
              [csv "employee_jan.csv"; csv "employee_feb.csv"]
              (Locals ∅ []) empty_world) as (l1 & w1 & Hb1).
  { intros f k Hf Hk.
    each_file Hf; vm_compute in Hk; injection Hk as <-; reflexivity. }
  exists w1. split; [|split; [|split]].
  - apply (failed_write_stops_the_page lower demo_files uploads
             (locked "uploads/project_project.csv")
             [csv "employee_jan.csv"; csv "employee_feb.csv"]
             [csv "notes.csv"] (csv "project.csv") "project" _ l1 empty_world
             w1 true Hb1); reflexivity.
  - destruct (upload_loop_world lower demo_files uploads
                (locked "uploads/project_project.csv")
                [csv "employee_jan.csv"; csv "employee_feb.csv"]
                (Locals ∅ []) empty_world) as (_ & Hscr & _).
    rewrite Hb1 in Hscr. exact Hscr.
  - apply (upload_loop_saved lower demo_files uploads
             (locked "uploads/project_project.csv")
             [csv "employee_jan.csv"] [] (csv "employee_feb.csv") "employee"
             _ _ _ _ Hb1); [reflexivity|].
    intros g k' Hg. by apply elem_of_nil in Hg.
  - destruct (upload_loop_world lower demo_files uploads
                (locked "uploads/project_project.csv")
                [csv "employee_jan.csv"; csv "employee_feb.csv"]
                (Locals ∅ []) empty_world) as (_ & _ & Hfs).
    rewrite Hb1 in Hfs. cbn [snd] in Hfs. rewrite Hfs; [apply lookup_empty|].
    intros f k Hf Hk.
    each_file Hf; vm_compute in Hk; injection Hk as <-; discriminate.
Defined.

Lemma second_run_changes_nothing_witness :
  ∃ l w1,
    demo_loop mixed_batch empty_world = (Ok l, w1)
    ∧ demo_loop mixed_batch w1 = (Ok l, w1).
Proof.
  destruct (upload_loop_returns lower demo_files uploads no_error
              mixed_batch (Locals ∅ []) empty_world) as (l & w1 & Hrun);
    [done|].
  exists l, w1. split; [exact Hrun|].
  exact (second_run_changes_nothing lower demo_files uploads no_error
           mixed_batch l empty_world w1 Hrun).
Defined.

Lemma every_file_accounted_for_witness :
  ∃ l w1,
    demo_loop clashing_batch empty_world = (Ok l, w1)
    ∧ length (unrecognized_files l) = 1
    ∧ size (files_dict l) ≤ 3.
Proof.
  destruct (upload_loop_returns lower demo_files uploads no_error
              clashing_batch (Locals ∅ []) empty_world) as (l & w1 & Hrun);
    [done|].
  exists l, w1. split; [exact Hrun|].
  destruct (every_file_accounted_for lower demo_files uploads no_error
              clashing_batch l empty_world w1 Hrun) as (Hall & _ & Hle).
  assert (record_types lower demo_files clashing_batch
          = ["employee"; "employee"; "project"]) as Hty
    by (vm_compute; reflexivity).
  rewrite Hty in Hall, Hle. cbn [length] in Hall, Hle.
  split; [unfold clashing_batch in Hall; cbn [length] in Hall; lia | exact Hle].
Defined.

End FileUploadMoreFacts.

(** ** More on the connection pool *)

Module DatabasePoolMoreFacts.
Import Py DatabasePool DatabasePoolFacts.

Section Driver.

Variable fault : call -> list event -> option error.
Variable connection_of : list event -> connection.

Local Abbreviation invoke := (DatabasePool.invoke fault).
Local Abbreviation getconn := (DatabasePool.getconn fault connection_of).
Local Abbreviation get_connection :=
  (DatabasePool.get_connection fault connection_of).
Local Abbreviation get_cursor := (DatabasePool.get_cursor fault connection_of).
Local Abbreviation open_cursor := (DatabasePool.open_cursor fault).
Local Abbreviation construct := (DatabasePool.construct fault).
Local Abbreviation close_all := (DatabasePool.close_all fault).

Lemma invoke_raise (c : call) (s : store) (err : error) :
  fault c (trace s) = Some err →
  invoke c s = (Raise (exn_of err), record (called c) s).
Proof. unfold DatabasePool.invoke. by intros ->. Qed.

(** [close_all] closes the driver's pool and keeps the singleton: the
    class attribute and the instance's pool attribute stay set, so that
    every later construction returns the same instance without building a
    pool, and [getconn] is then asked of the pool that was closed.  On an
    instance without a pool [close_all] does nothing. *)
Theorem close_all_keeps_the_singleton (self : nat) (s : store) (n : nat) :
  _instance s = Some self →
  construct n (close_all self s).2
  = (replicate n (Ok self), (close_all self s).2)
  ∧ pool_builds (trace (close_all self s).2) = pool_builds (trace s)
  ∧ _pool (close_all self s).2 = _pool s
  ∧ (is_Some (_pool s !! self) →
     called pool_closeall ∈ trace (close_all self s).2
     ∧ (getconn self (close_all self s).2).2
       = record (called pool_getconn) (close_all self s).2)
  ∧ (_pool s !! self = None → close_all self s = (Ok tt, s)).
Proof.
  intros Hinst. unfold DatabasePool.close_all.
  destruct (_pool s !! self) as [h|] eqn:Hpool.
  - unfold bind, emit, modify, DatabasePool.invoke.
    assert (Hframe : ∀ r s1,
      (r, s1) = match fault pool_closeall (trace s) with
                | Some err => (Raise (exn_of err) : result unit,
                               record (called pool_closeall) s)
                | None => (Ok tt,
                           record (logger_info "All database connections closed")
                             (record (called pool_closeall) s))
                end →
      _instance s1 = Some self ∧ _pool s1 = _pool s
      ∧ pool_builds (trace s1) = pool_builds (trace s)
      ∧ called pool_closeall ∈ trace s1).
    { intros r s1. destruct (fault pool_closeall (trace s));
        intros [= _ ->]; cbn [record _instance _pool trace];
        rewrite ?pool_builds_app;
        (split; [exact Hinst|]); (split; [reflexivity|]); split.
      - unfold pool_builds. rewrite filter_cons_False by done. cbn. lia.
      - set_solver.
      - unfold pool_builds.
        rewrite (filter_cons_False _ (called pool_closeall)) by done.
        rewrite (filter_cons_False _ (logger_info _)) by done. cbn. lia.
      - set_solver. }
    match goal with
    | |- context [construct n ?x.2] =>
        destruct x as [r s1] eqn:Hx
    end.
    assert (Hs1 : _instance s1 = Some self ∧ _pool s1 = _pool s
      ∧ pool_builds (trace s1) = pool_builds (trace s)
      ∧ called pool_closeall ∈ trace s1).
    { apply (Hframe r). rewrite <- Hx.
      by destruct (fault pool_closeall (trace s)). }
    destruct Hs1 as (Hi & Hp & Hb & Hin). cbn [snd].
    split; [by apply construct_again|]. split; [exact Hb|].
    split; [exact Hp|]. split; [|discriminate].
    intros _. split; [exact Hin|].
    unfold DatabasePool.getconn. rewrite Hp, Hpool. unfold bind.
    rewrite (surjective_pairing (invoke pool_getconn s1)), invoke_trace.
    by destruct (invoke pool_getconn s1).1.
  - cbn [snd]. split; [by apply construct_again|].
    split; [reflexivity|]. split; [reflexivity|].
    split; [by intros [? ?]|done].
Qed.

(** When [conn.cursor ()] raises, the body of the scope is not run and
    nothing is committed, rolled back or closed; [get_connection] logs the
    failure under its own heading, the connection is given back, and the
    driver's exception reaches the caller. *)
Theorem failed_cursor_skips_the_body {A} (self : nat)
    (body : cursor -> M store A) (s s1 : store) (conn : connection)
    (err : error) :
  getconn self s = (Ok conn, s1) →
  fault (conn_cursor conn) (trace s1) = Some err →
  (∀ t, fault (pool_putconn conn) t = None) →
  get_cursor self body s
  = (Raise (exn_of err),
     record_all [called (conn_cursor conn); getting_failed (exn_of err);
                 called (pool_putconn conn)] s1).
Proof.
  intros Hget Hcur Hput.
  unfold DatabasePool.get_cursor, DatabasePool.get_connection.
  rewrite Hget. unfold try_finally, try_except. unfold bind at 1.
  unfold DatabasePool.open_cursor. unfold bind at 1.
  rewrite (invoke_raise _ _ _ Hcur). cbn [exn_is_Exception exn_of].
  unfold bind, emit, modify, raise, DatabasePool.invoke. cbn [trace record].
  rewrite Hput. unfold record, record_all. cbn. by rewrite <- !app_assoc.
Qed.

(** When the body returns and [commit] raises, the connection is rolled
    back, the failure is logged, the cursor is closed, the connection is
    given back, and the exception of [commit] reaches the caller in place
    of the body's result. *)
Theorem failed_commit_rolls_back {A} (self : nat) (body : cursor -> M store A)
    (s s1 s2 s3 : store) (conn : connection) (cur : cursor) (a : A)
    (err : error) :
  getconn self s = (Ok conn, s1) →
  open_cursor conn s1 = (Ok cur, s2) →
  body cur s2 = (Ok a, s3) →
  fault (conn_commit conn) (trace s3) = Some err →
  (∀ t, fault (conn_rollback conn) t = None) →
  (∀ t, fault (cursor_close cur) t = None) →
  (∀ t, fault (pool_putconn conn) t = None) →
  get_cursor self body s
  = (Raise (exn_of err),
     record_all [called (conn_commit conn); called (conn_rollback conn);
                 operation_failed (exn_of err); called (cursor_close cur);
                 getting_failed (exn_of err); called (pool_putconn conn)]
                s3).
Proof.
  intros Hget Hopen Hbody Hcommit Hrollback Hclose Hput.
  unfold DatabasePool.get_cursor, DatabasePool.get_connection.
  rewrite Hget. unfold try_finally at 1. unfold try_except at 1.
  unfold bind at 1. rewrite Hopen.
  unfold try_finally, try_except, bind. rewrite Hbody.
  rewrite (invoke_raise _ _ _ Hcommit). cbn [exn_is_Exception exn_of].
  unfold DatabasePool.invoke, emit, modify, raise.
  rewrite Hrollback. cbn [trace record]. rewrite Hclose.
  change (exn_is_Exception (exn_of err)) with true. cbv beta iota.
  rewrite Hput.
  unfold record, record_all, operation_failed, getting_failed. cbn.
  by rewrite <- !app_assoc.
Qed.

(** When the body raises an exception that derives from [Exception] and
    [rollback] raises in turn, the exception of [rollback] reaches the
    caller in place of the body's, and the line "Database operation failed"
    is not logged; the cursor is still closed and the connection given
    back. *)
Theorem failed_rollback_hides_the_cause {A} (self : nat)
    (body : cursor -> M store A) (s s1 s2 s3 : store) (conn : connection)
    (cur : cursor) (e : exn) (err : error) :
  getconn self s = (Ok conn, s1) →
  open_cursor conn s1 = (Ok cur, s2) →
  body cur s2 = (Raise e, s3) →
  exn_is_Exception e = true →
  fault (conn_rollback conn) (trace s3) = Some err →
  (∀ t, fault (cursor_close cur) t = None) →
  (∀ t, fault (pool_putconn conn) t = None) →
  get_cursor self body s
  = (Raise (exn_of err),
     record_all [called (conn_rollback conn); called (cursor_close cur);
                 getting_failed (exn_of err); called (pool_putconn conn)]
                s3).
Proof.
  intros Hget Hopen Hbody He Hrollback Hclose Hput.
  unfold DatabasePool.get_cursor, DatabasePool.get_connection.
  rewrite Hget. unfold try_finally at 1. unfold try_except at 1.
  unfold bind at 1. rewrite Hopen.
  unfold try_finally, try_except, bind. rewrite Hbody, He.
  rewrite (invoke_raise _ _ _ Hrollback).
  unfold DatabasePool.invoke, emit, modify, raise.
  cbn [trace record]. rewrite Hclose.
  change (exn_is_Exception (exn_of err)) with true. cbv beta iota.
  rewrite Hput.
  unfold record, record_all, getting_failed. cbn.
  by rewrite <- !app_assoc.
Qed.

(** When the body returns, [commit] succeeds and [cursor.close ()] raises,
    the caller gets the exception of [close] although the transaction is
    committed: nothing is rolled back, the failure is logged under the
    heading of [get_connection], and the connection is given back. *)
Theorem committed_yet_reported_failed {A} (self : nat)
    (body : cursor -> M store A) (s s1 s2 s3 : store) (conn : connection)
    (cur : cursor) (a : A) (err : error) :
  getconn self s = (Ok conn, s1) →
  open_cursor conn s1 = (Ok cur, s2) →
  body cur s2 = (Ok a, s3) →
  fault (conn_commit conn) (trace s3) = None →
  fault (cursor_close cur) (trace s3 ++ [called (conn_commit conn)])
  = Some err →
  (∀ t, fault (pool_putconn conn) t = None) →
  get_cursor self body s
  = (Raise (exn_of err),
     record_all [called (conn_commit conn); called (cursor_close cur);
                 getting_failed (exn_of err); called (pool_putconn conn)]
                s3).
Proof.
  intros Hget Hopen Hbody Hcommit Hclose Hput.
  unfold DatabasePool.get_cursor, DatabasePool.get_connection.
  rewrite Hget. unfold try_finally at 1. unfold try_except at 1.
  unfold bind at 1. rewrite Hopen.
  unfold try_finally, try_except, bind. rewrite Hbody.
  unfold DatabasePool.invoke, emit, modify, raise, ret.
  rewrite Hcommit. cbn [trace record]. rewrite Hclose.
  change (exn_is_Exception (exn_of err)) with true. cbv beta iota.
  rewrite Hput.
  unfold record, record_all, getting_failed. cbn.
  by rewrite <- !app_assoc.
Qed.

(** A scope that ends without an exception has committed: whatever the
    driver does, [get_cursor] returns a value only if the body returned
    that value and [commit], [close] and [putconn] were called, in this
    order, with nothing rolled back and nothing logged.  In particular an
    exception of the body is never swallowed. *)
Theorem normal_return_means_committed {A} (self : nat)
    (body : cursor -> M store A) (s s1 s2 s3 : store) (conn : connection)
    (cur : cursor) (r : result A) (a : A) :
  getconn self s = (Ok conn, s1) →
  open_cursor conn s1 = (Ok cur, s2) →
  body cur s2 = (r, s3) →
  (get_cursor self body s).1 = Ok a →
  r = Ok a
  ∧ (get_cursor self body s).2
    = record_all [called (conn_commit conn); called (cursor_close cur);
                  called (pool_putconn conn)] s3.
Proof.
  intros Hget Hopen Hbody.
  destruct (get_cursor self body s) as [r' s4] eqn:Hrun.
  cbn [fst snd]. intros ->. revert Hrun.
  unfold DatabasePool.get_cursor, DatabasePool.get_connection.
  rewrite Hget. unfold try_finally at 1. unfold try_except at 1.
  unfold bind at 1. rewrite Hopen.
  unfold try_finally, try_except, bind. rewrite Hbody.
  unfold DatabasePool.invoke, emit, modify, raise, ret.
  destruct r as [a'|e].
  - repeat (match goal with
            | |- context [fault ?c ?t] => destruct (fault c t) as [[? ?]|]
            end; cbn); try discriminate.
    intros [= -> <-]. split; [reflexivity|].
    unfold record_all, record. cbn. by rewrite <- !app_assoc.
  - destruct (exn_is_Exception e) eqn:He;
      repeat (first [ rewrite He
                    | match goal with
                      | |- context [fault ?c ?t] =>
                          destruct (fault c t) as [[? ?]|]
                      end ]; cbn); discriminate.
Qed.

End Driver.

(** Closing the pool of a running module and constructing twice. *)
Lemma close_all_keeps_the_singleton_witness :
  (construct no_fault 2 (close_all no_fault 0 ready_store).2).1 = [Ok 0; Ok 0]
  ∧ pool_builds (trace (close_all no_fault 0 ready_store).2) = 0
  ∧ called pool_closeall ∈ trace (close_all no_fault 0 ready_store).2.
Proof.
  destruct (close_all_keeps_the_singleton no_fault (λ _, 7) 0 ready_store 2
              eq_refl) as (Hsame & Hbuilds & _ & Hclosed & _).
  split; [by rewrite Hsame|]. split; [exact Hbuilds|].
  apply Hclosed. by eexists.
Defined.

(** A connection on which no cursor can be opened. *)
Lemma failed_cursor_skips_the_body_witness :
  get_cursor (failing (conn_cursor 7)) (λ _, 7) 0
    (λ _, ret 5 : M store nat) ready_store
  = (Raise (Exn "OperationalError" true "server closed the connection"),
     Store [called pool_getconn; called (conn_cursor 7);
            getting_failed
              (Exn "OperationalError" true "server closed the connection");
            called (pool_putconn 7)]
           (Some 0) {[0 := 0]} 1).
Proof.
  exact (failed_cursor_skips_the_body (failing (conn_cursor 7)) (λ _, 7) 0
           (λ _, ret 5) ready_store _ 7 _ eq_refl eq_refl (λ _, eq_refl)).
Defined.

(** A connection lost between the body and the commit. *)
Lemma failed_commit_rolls_back_witness :
  (get_cursor (failing (conn_commit 7)) (λ _, 7) 0
     (λ _, ret 5 : M store nat) ready_store).1
  = Raise (Exn "OperationalError" true "server closed the connection").
Proof.
  by rewrite (failed_commit_rolls_back (failing (conn_commit 7)) (λ _, 7) 0
                (λ _, ret 5) ready_store _ _ _ 7 _ 5 _
                eq_refl eq_refl eq_refl eq_refl
                (λ _, eq_refl) (λ _, eq_refl) (λ _, eq_refl)).
Defined.

(** A body that raises [ValueError] on a connection that cannot be rolled
    back: the caller sees the driver's error. *)
Lemma failed_rollback_hides_the_cause_witness :
  (get_cursor (failing (conn_rollback 7)) (λ _, 7) 0
     (λ _, raise ValueError : M store nat) ready_store).1
  = Raise (Exn "OperationalError" true "server closed the connection").
Proof.
  by rewrite (failed_rollback_hides_the_cause (failing (conn_rollback 7))
                (λ _, 7) 0 (λ _, raise ValueError) ready_store _ _ _ 7 _ _ _
                eq_refl eq_refl eq_refl eq_refl eq_refl
                (λ _, eq_refl) (λ _, eq_refl)).
Defined.

(** A cursor that cannot be closed, under a body that only returns. *)
Lemma committed_yet_reported_failed_witness :
  get_cursor (failing (cursor_close (Cursor 7 1))) (λ _, 7) 0
    (λ _, ret 5 : M store nat) ready_store
  = (Raise (Exn "OperationalError" true "server closed the connection"),
     Store [called pool_getconn; called (conn_cursor 7);
            called (conn_commit 7); called (cursor_close (Cursor 7 1));
            getting_failed
              (Exn "OperationalError" true "server closed the connection");
            called (pool_putconn 7)]
           (Some 0) {[0 := 0]} 1).
Proof.
  exact (committed_yet_reported_failed (failing (cursor_close (Cursor 7 1)))
           (λ _, 7) 0 (λ _, ret 5) ready_store _ _ _ 7 _ 5 _
           eq_refl eq_refl eq_refl eq_refl eq_refl (λ _, eq_refl)).
Defined.

(** A scope that returns 5 on a driver without faults. *)
Lemma normal_return_means_committed_witness :
  (get_cursor no_fault (λ _, 7) 0 (λ _, ret 5 : M store nat) ready_store).2
  = Store [called pool_getconn; called (conn_cursor 7);
           called (conn_commit 7); called (cursor_close (Cursor 7 1));
           called (pool_putconn 7)]
          (Some 0) {[0 := 0]} 1.
Proof.
  exact (proj2 (normal_return_means_committed no_fault (λ _, 7) 0
                  (λ _, ret 5) ready_store _ _ _ 7 _ (Ok 5) 5
                  eq_refl eq_refl eq_refl eq_refl)).
Defined.

(** A driver on which the cursor cannot be closed: the call is made all the
    same, and the connection is given back after it. *)
Lemma get_cursor_always_closes_witness :
  ∃ es,
    trace (get_cursor (failing (cursor_close (Cursor 7 1))) (λ _, 7) 0
             (λ _, raise ValueError : M store nat) ready_store).2
    = [called pool_getconn; called (conn_cursor 7)] ++ es
      ++ [called (pool_putconn 7)]
    ∧ called (cursor_close (Cursor 7 1)) ∈ es.
Proof.
  exact (get_cursor_always_closes (failing (cursor_close (Cursor 7 1)))
           (λ _, 7) 0 (λ _, raise ValueError) ready_store _ _ _ 7 _ _
           eq_refl eq_refl eq_refl).
Defined.

End DatabasePoolMoreFacts.

(** ** The activity logger: the constructor, the query events, the reader *)

Module PySliceFacts.
Import PyStr PyStrFacts.

Lemma len_append (a b : string) : len (a +:+ b) = len a + len b.
Proof.
  induction a as [|c a IH]; [reflexivity|].
  rewrite append_cons. cbn [len]. destruct (is_continuation c); lia.
Qed.

Lemma slice_to_len (n : nat) (s : string) :
  len (slice_to n s) = n `min` len s.
Proof.
  revert n. induction s as [|c s IH]; intros n; cbn [slice_to len].
  - lia.
  - destruct (is_continuation c) eqn:Hc.
    + cbn [len]. rewrite Hc. apply IH.
    + destruct n as [|n]; [reflexivity|].
      cbn [len]. rewrite Hc, IH. lia.
Qed.

Lemma slice_to_all (n : nat) (s : string) : len s ≤ n → slice_to n s = s.
Proof.
  revert n. induction s as [|c s IH]; intros n; cbn [slice_to len];
    [done|].
  destruct (is_continuation c).
  - intros H. by rewrite IH.
  - destruct n as [|n]; [lia|]. intros H. rewrite IH; [done|lia].
Qed.

Lemma slice_to_prefix (n : nat) (s rest : string) :
  String.prefix (slice_to n s) (slice_to n s +:+ rest) = true.
Proof. apply prefix_append. by eexists. Qed.

Lemma slice_to_is_prefix (n : nat) (s : string) :
  String.prefix (slice_to n s) s = true.
Proof.
  revert n. induction s as [|c s IH]; intros n; cbn [slice_to];
    [reflexivity|].
  destruct (is_continuation c).
  - cbn [String.prefix]. destruct (ascii_dec c c); [apply IH|done].
  - destruct n as [|n]; [reflexivity|].
    cbn [String.prefix]. destruct (ascii_dec c c); [apply IH|done].
Qed.

(** Length and slices count code points, not bytes: the letter é takes
    two bytes. *)
Example len_counts_code_points :
  len "éé" = 2 ∧ String.length "éé" = 4
  ∧ slice_to 1 "éa" = "é" ∧ slice_to 2 "aéb" = "aé".
Proof. repeat split; vm_compute; reflexivity. Qed.

End PySliceFacts.

Module ActivityLoggerMoreFacts.
Import Py ActivityLogger ActivityLoggerFacts PySplitFacts PySliceFacts.

Section Environment.

Variable getenv : string -> option string.
Variable create_engine_error : string -> option error.
Variable create_all_error : engine_t -> option error.
Variable json_dumps : list (string * value) -> error + string.
Variable session_error : engine_t -> SystemLog -> list SystemLog -> option error.
Variable execute :
  engine_t -> option string -> Z -> Z -> list SystemLog
  -> error + list SystemLog.

Local Abbreviation __init__ :=
  (ActivityLogger.__init__ getenv create_engine_error create_all_error).
Local Abbreviation db_url := (ActivityLogger.db_url getenv).
Local Abbreviation log_event :=
  (ActivityLogger.log_event json_dumps session_error).
Local Abbreviation log_query :=
  (ActivityLogger.log_query json_dumps session_error).
Local Abbreviation log_ai_query :=
  (ActivityLogger.log_ai_query json_dumps session_error).
Local Abbreviation get_logger :=
  (ActivityLogger.get_logger getenv create_engine_error create_all_error).
Local Abbreviation get_logs := (ActivityLogger.get_logs execute).

(** The session factory of the object constructed. *)
Lemma init_session (engine_arg : option engine_t) (s : store) :
  ∃ logger s1,
    __init__ engine_arg s = (Ok logger, s1)
    ∧ engine logger = Session logger
    ∧ _activity_logger s1 = _activity_logger s
    ∧ system_logs s1 = system_logs s
    ∧ Session logger
      = match engine_arg with
        | Some eng => Some eng
        | None => match create_engine_error db_url with
                  | Some _ => None
                  | None => Some db_url
                  end
        end.
Proof.
  unfold ActivityLogger.__init__, bind, modify, try_except.
  destruct engine_arg as [eng|].
  - unfold ret at 1. unfold create_logs_table.
    destruct (create_all_error eng); cbn;
      eexists _, _; (split; [reflexivity|]); cbn; done.
  - fold (ActivityLogger.db_url getenv).
    destruct (create_engine_error db_url) as [err|].
    + cbn. eexists _, _. split; [reflexivity|]. cbn. done.
    + unfold ret at 1. unfold create_logs_table.
      destruct (create_all_error _); cbn;
        eexists _, _; (split; [reflexivity|]); cbn; done.
Qed.

(** The constructed logger lacks a session factory exactly when no engine
    was passed and [create_engine] raised.  A failure to create the table
    [system_logs] does not disable the logger: it is logged, and the
    object keeps its engine and its session factory. *)
Theorem logger_disabled_iff (engine_arg : option engine_t) (s : store) :
  ∃ logger s1,
    __init__ engine_arg s = (Ok logger, s1)
    ∧ (Session logger = None
       ↔ engine_arg = None ∧ is_Some (create_engine_error db_url))
    ∧ engine logger = Session logger.
Proof.
  destruct (init_session engine_arg s) as (lg & s1 & Hrun & He & _ & _ & Hs).
  exists lg, s1. split; [exact Hrun|]. split; [|exact He].
  rewrite Hs. destruct engine_arg as [eng|].
  - split; [done|]. by intros [? _].
  - destruct (create_engine_error db_url) as [err|].
    + split; [|done]. intros _. split; [done|]. by eexists.
    + split; [done|]. intros [_ [? ?]]. done.
Qed.

(** [get_logger] always returns a logger and leaves it in the module
    global; the table is not touched. *)
Lemma get_logger_returns (engine_arg : option engine_t) (s : store) :
  ∃ logger s1,
    get_logger engine_arg s = (Ok logger, s1)
    ∧ _activity_logger s1 = Some logger
    ∧ system_logs s1 = system_logs s
    ∧ (_activity_logger s = None →
       (__init__ engine_arg s).1 = Ok logger).
Proof.
  unfold ActivityLogger.get_logger.
  destruct (_activity_logger s) as [lg|] eqn:Hg.
  - exists lg, s. done.
  - destruct (init_session engine_arg s) as (lg & s1 & Hrun & _ & _ & Ht & _).
    unfold bind at 1. rewrite Hrun. cbn.
    eexists _, _. split; [reflexivity|]. cbn. done.
Qed.

(** A query event never raises.  When it is recorded, the row carries the
    whole query text in [details]; its description holds the query type,
    the fixed heading and at most 503 characters (code points) of the
    query: the first 500 are always there, and a query of at most 500
    characters is there as it is. *)
Theorem log_query_row (self : ActivityLogger) (query_text : string)
    (usr : option string) (query_type status : string) (s : store) :
  ∃ b s',
    log_query self query_text usr query_type status s = (Ok b, s')
    ∧ if b
      then ∃ short text,
             json_dumps [("query", VStr query_text); ("status", VStr status)]
             = inr text
             ∧ system_logs s'
               = system_logs s
                 ++ [Build_SystemLog "QUERY" usr
                       (query_type +:+ " query executed: " +:+ short)
                       (Some text) (clock s)]
             ∧ PyStr.len short ≤ 503
             ∧ String.prefix (PyStr.slice_to 500 query_text) short = true
             ∧ (PyStr.len query_text ≤ 500 → short = query_text)
      else system_logs s' = system_logs s.
Proof.
  unfold ActivityLogger.log_query. rewrite log_event_eq. cbv zeta.
  set (short := if decide (500 < PyStr.len query_text)
                then PyStr.slice_to 500 query_text +:+ "..."
                else query_text).
  assert (Hshort : PyStr.len short ≤ 503
                   ∧ String.prefix (PyStr.slice_to 500 query_text) short = true
                   ∧ (PyStr.len query_text ≤ 500 → short = query_text)).
  { subst short. destruct (decide (500 < PyStr.len query_text)) as [H|H].
    - rewrite len_append, slice_to_len.
      change (PyStr.len "...") with 3.
      split; [lia|]. split; [apply slice_to_prefix|lia].
    - split; [lia|]. split; [apply slice_to_is_prefix|done]. }
  destruct (Session self) as [eng|].
  - cbn [details_given].
    destruct (json_dumps _) as [err|text] eqn:Hj.
    + eexists _, _. split; [reflexivity|]. done.
    + destruct (session_error _ _ _).
      * eexists _, _. split; [reflexivity|]. done.
      * eexists _, _. split; [reflexivity|]. exists short, text. done.
  - eexists _, _. split; [reflexivity|]. done.
Qed.

(** An AI query event never raises.  When it is recorded, the row carries
    the question and the generated SQL in [details]; its description is at
    most 113 characters (code points) long and ends in three dots also
    when the question was not cut: a question of at most 100 characters is
    there in full, followed by the dots. *)
Theorem log_ai_query_row (self : ActivityLogger)
    (user_query generated_sql : string) (usr : option string)
    (status : string) (s : store) :
  ∃ b s',
    log_ai_query self user_query generated_sql usr status s = (Ok b, s')
    ∧ if b
      then ∃ descr text,
             json_dumps [("user_query", VStr user_query);
                         ("generated_sql", VStr generated_sql);
                         ("status", VStr status)] = inr text
             ∧ system_logs s'
               = system_logs s
                 ++ [Build_SystemLog "AI_QUERY" usr descr (Some text)
                       (clock s)]
             ∧ PyStr.len descr ≤ 113
             ∧ (∃ shown, descr = "AI Query: " +:+ shown +:+ "..."
                         ∧ String.prefix shown user_query = true)
             ∧ (PyStr.len user_query ≤ 100 →
                descr = "AI Query: " +:+ user_query +:+ "...")
      else system_logs s' = system_logs s.
Proof.
  unfold ActivityLogger.log_ai_query. rewrite log_event_eq. cbv zeta.
  set (descr := "AI Query: " +:+ PyStr.slice_to 100 user_query +:+ "...").
  assert (Hd : PyStr.len descr ≤ 113
               ∧ (∃ shown, descr = "AI Query: " +:+ shown +:+ "..."
                           ∧ String.prefix shown user_query = true)
               ∧ (PyStr.len user_query ≤ 100 →
                  descr = "AI Query: " +:+ user_query +:+ "...")).
  { subst descr. split; [|split].
    - rewrite !len_append, slice_to_len.
      change (PyStr.len "AI Query: ") with 10.
      change (PyStr.len "...") with 3. lia.
    - eexists. split; [reflexivity|]. apply slice_to_is_prefix.
    - intros H. by rewrite slice_to_all. }
  destruct (Session self) as [eng|].
  - cbn [details_given].
    destruct (json_dumps _) as [err|text] eqn:Hj.
    + eexists _, _. split; [reflexivity|]. done.
    + destruct (session_error _ _ _).
      * eexists _, _. split; [reflexivity|]. done.
      * eexists _, _. split; [reflexivity|]. exists descr, text. done.
  - eexists _, _. split; [reflexivity|]. done.
Qed.

(** What [get_logs] does, case by case. *)
Lemma get_logs_eq (self : ActivityLogger) (ev : option string)
    (limit offset : Z) (s : store) :
  get_logs self ev limit offset s =
  let say l := Store (system_logs s) (log_lines s ++ [l]) (clock s)
                     (_activity_logger s) (next_object s) in
  match Session self with
  | None =>
      (Ok [], say (logger_error "Cannot get logs: Session is not initialized"))
  | Some eng =>
      let wanted := match ev with
                    | Some t => if PyStr.truthy t then Some t else None
                    | None => None
                    end in
      match execute eng wanted limit offset (system_logs s) with
      | inl err =>
          (Ok [],
           say (logger_error ("Error retrieving logs: " +:+ error_str err)))
      | inr result => (Ok result, s)
      end
  end.
Proof.
  unfold ActivityLogger.get_logs, try_except.
  destruct (Session self) as [eng|]; [|reflexivity].
  cbv zeta. by destruct (execute _ _ _ _ _).
Qed.

End Environment.

(** A logger whose engine could not be created is never repaired: the
    first [get_logger ()] keeps it in the module global, and from then on,
    whatever the environment, the database and the arguments are, every
    [get_logger] returns this object and every [log_event] on it returns
    [False] and writes no row. *)
Theorem failed_engine_disables_logging
    (getenv : string -> option string)
    (create_engine_error : string -> option error)
    (create_all_error : engine_t -> option error)
    (s : store) (err : error) :
  _activity_logger s = None →
  create_engine_error (db_url getenv) = Some err →
  ∃ logger s1,
    get_logger getenv create_engine_error create_all_error None s
    = (Ok logger, s1)
    ∧ _activity_logger s1 = Some logger
    ∧ ∀ getenv' create_engine_error' create_all_error' json_dumps
        session_error s2,
        _activity_logger s2 = Some logger →
        (∀ engine_arg,
           get_logger getenv' create_engine_error' create_all_error'
             engine_arg s2 = (Ok logger, s2))
        ∧ (∀ ev descr usr det,
             (log_event json_dumps session_error logger ev descr usr det s2).1
             = Ok false
             ∧ system_logs
                 (log_event json_dumps session_error logger ev descr usr det
                    s2).2
               = system_logs s2
             ∧ _activity_logger
                 (log_event json_dumps session_error logger ev descr usr det
                    s2).2
               = Some logger).
Proof.
  intros Hnone Hfail.
  destruct (get_logger_returns getenv create_engine_error create_all_error
              None s) as (lg & s1 & Hrun & Hkept & _ & Hinit).
  destruct (init_session getenv create_engine_error create_all_error None s)
    as (lg' & s1' & Hrun' & _ & _ & _ & Hsession).
  specialize (Hinit Hnone). rewrite Hrun' in Hinit. cbn in Hinit.
  injection Hinit as ->. rewrite Hfail in Hsession.
  exists lg, s1. split; [exact Hrun|]. split; [exact Hkept|].
  intros getenv' ce' ca' jd se s2 Hs2. split.
  - intros arg. unfold get_logger. by rewrite Hs2.
  - intros ev descr usr det. rewrite log_event_eq. cbv zeta.
    rewrite Hsession. cbn. done.
Qed.

(** An installation without a database driver. *)
Lemma failed_engine_disables_logging_witness :
  ∃ logger s1,
    get_logger no_env
      (λ _, Some (Error "NoSuchModuleError" "Can't load plugin")) no_error
      None initial_store
    = (Ok logger, s1)
    ∧ (get_logger no_env no_error no_error (Some "db") s1).1 = Ok logger
    ∧ (log_event demo_dumps (λ _ _ _, None) logger "QUERY" "ran" None None
         s1).1 = Ok false.
Proof.
  destruct (failed_engine_disables_logging no_env
              (λ _, Some (Error "NoSuchModuleError" "Can't load plugin"))
              no_error initial_store _ eq_refl eq_refl)
    as (lg & s1 & Hrun & Hkept & Hlater).
  exists lg, s1. split; [exact Hrun|].
  destruct (Hlater no_env no_error no_error demo_dumps (λ _ _ _, None) s1
              Hkept) as [Hget Hlog].
  split; [by rewrite Hget|]. apply Hlog.
Defined.

End ActivityLoggerMoreFacts.

(** ** The page of the activity logs *)

Module ActivityLogViewFacts.
Import Py ActivityLogger ActivityLogView ActivityLoggerMoreFacts.

Section Environment.

Variable getenv : string -> option string.
Variable create_engine_error : string -> option error.
Variable create_all_error : engine_t -> option error.
Variable execute :
  engine_t -> option string -> Z -> Z -> list SystemLog
  -> error + list SystemLog.

Local Abbreviation get_logger :=
  (ActivityLogger.get_logger getenv create_engine_error create_all_error).
Local Abbreviation get_logs := (ActivityLogger.get_logs execute).
Local Abbreviation render_activity_logs :=
  (ActivityLogView.render_activity_logs getenv create_engine_error
     create_all_error execute).

(** The page, in terms of the two calls it makes. *)
Lemma render_activity_logs_eq (engine_arg : option engine_t) (p : page)
    (logger : ActivityLogger) (s1 : store) :
  get_logger engine_arg (logger_store p) = (Ok logger, s1) →
  render_activity_logs engine_arg p
  = let '(r, s2) := get_logs logger None 50 0 s1 in
    match r with
    | Ok [] => (Ok tt, Page s2 (screen p ++ [st_info "No logs found"]))
    | Ok logs => (Ok tt, Page s2 (screen p ++ [st_dataframe (display <$> logs)]))
    | Raise e => (Raise e, Page s2 (screen p))
    end.
Proof.
  intros Hget.
  unfold ActivityLogView.render_activity_logs, bind, call_logger.
  rewrite Hget. cbn [logger_store screen].
  destruct (get_logs logger None 50 0 s1) as [[[|l logs]|e] s2]; reflexivity.
Qed.

(** The page of the logs never raises and shows exactly one element: the
    table of the rows read, or the line "No logs found"; it writes no row.
    The rows shown are those returned by the query, in that order, without
    their [details]. *)
Theorem logs_page_shows_one_element (engine_arg : option engine_t) (p : page) :
  ∃ el p',
    render_activity_logs engine_arg p = (Ok tt, p')
    ∧ screen p' = screen p ++ [el]
    ∧ system_logs (logger_store p') = system_logs (logger_store p)
    ∧ (el = st_info "No logs found"
       ∨ ∃ eng logs,
           logs ≠ []
           ∧ execute eng None 50 0 (system_logs (logger_store p)) = inr logs
           ∧ el = st_dataframe (display <$> logs)).
Proof.
  destruct (get_logger_returns getenv create_engine_error create_all_error
              engine_arg (logger_store p)) as (lg & s1 & Hget & _ & Hrows & _).
  rewrite (render_activity_logs_eq _ _ _ _ Hget), get_logs_eq. cbv zeta.
  destruct (Session lg) as [eng|].
  - rewrite Hrows. destruct (execute _ _ _ _ _) as [err|[|l logs]] eqn:Hx.
    + eexists _, _. split; [reflexivity|]. cbn. by auto.
    + eexists _, _. split; [reflexivity|]. cbn. by auto.
    + eexists _, _. split; [reflexivity|]. cbn.
      split; [done|]. split; [done|]. right. by exists eng, (l :: logs).
  - eexists _, _. split; [reflexivity|]. cbn. by auto.
Qed.

(** A failure looks like an empty table: when the logger has no session
    factory, or when the query fails, the page shows "No logs found",
    whatever rows the table holds. *)
Theorem failed_query_looks_like_no_logs (engine_arg : option engine_t)
    (p : page) (logger : ActivityLogger) (s1 : store) :
  get_logger engine_arg (logger_store p) = (Ok logger, s1) →
  (Session logger = None
   ∨ ∃ eng err,
       Session logger = Some eng
       ∧ execute eng None 50 0 (system_logs s1) = inl err) →
  ∃ s2,
    render_activity_logs engine_arg p
    = (Ok tt, Page s2 (screen p ++ [st_info "No logs found"]))
    ∧ system_logs s2 = system_logs (logger_store p).
Proof.
  intros Hget Hfail.
  destruct (get_logger_returns getenv create_engine_error create_all_error
              engine_arg (logger_store p)) as (lg & s1' & Hget' & _ & Hrows & _).
  rewrite Hget in Hget'. injection Hget' as <- <-.
  rewrite (render_activity_logs_eq _ _ _ _ Hget), get_logs_eq. cbv zeta.
  destruct Hfail as [Hnone | (eng & err & Hsome & Hx)].
  - rewrite Hnone. eexists. split; [reflexivity|]. exact Hrows.
  - rewrite Hsome, Hx. eexists. split; [reflexivity|]. exact Hrows.
Qed.

End Environment.

(** A table with one row, behind a database that is down. *)
Lemma failed_query_looks_like_no_logs_witness :
  (ActivityLogView.render_activity_logs no_env no_error no_error
     (λ _ _ _ _ _, inl (Error "OperationalError" "connection refused"))
     (Some "db")
     (Page (Store [Build_SystemLog "QUERY" None "ran" None 0] [] 1 None 0)
           [])).1 = Ok tt
  ∧ screen
      (ActivityLogView.render_activity_logs no_env no_error no_error
         (λ _ _ _ _ _, inl (Error "OperationalError" "connection refused"))
         (Some "db")
         (Page (Store [Build_SystemLog "QUERY" None "ran" None 0] [] 1 None 0)
               [])).2
    = [st_info "No logs found"].
Proof.
  destruct (failed_query_looks_like_no_logs no_env no_error no_error
              (λ _ _ _ _ _, inl (Error "OperationalError" "connection refused"))
              (Some "db")
              (Page (Store [Build_SystemLog "QUERY" None "ran" None 0] [] 1
                           None 0) [])
              _ _ eq_refl
              (or_intror (ex_intro _ "db" (ex_intro _ _ (conj eq_refl eq_refl)))))
    as (s2 & Hrun & _).
  rewrite Hrun. split; reflexivity.
Defined.

End ActivityLogViewFacts.
